(** * scripts/parse_pdf.py: statement text to transaction records

    A shallow embedding of the extraction and normalisation engine of
    [scripts/parse_pdf.py], and the properties its specification states.

    Conventions of the embedding.
    - Python [str] values are lists of characters ([text]).  Characters are
      the 7-bit ASCII repertoire; the codes 128..255 of Rocq's [ascii] are
      carried along as symbols that are neither space, digit nor letter.
    - A Python value that may be [None] is an [option].
    - A Python computation that may raise is an [outcome]: it either
      [Returns] a value or [Raises] an exception.  Exceptions are instances
      of [Exception], the class both [except Exception] and the library
      calls of this script ([int], [float], [strptime], [pdfplumber]) deal
      in; interpreter-exit signals are outside the model.
    - Python [float] values are IEEE binary64 numbers, as [spec_float].
    - Output written to the diagnostic stream is not modelled. *)

From Stdlib Require Import List Ascii String ZArith NArith Bool Lia.
From Stdlib Require Import Floats.SpecFloat.
Import ListNotations.

Set Implicit Arguments.

(* ================================================================= *)
(** ** Text *)

Definition text := list ascii.

(** A literal: [txt "abc"] is the three-character text. *)
Definition txt (s : string) : text := list_ascii_of_string s.

Definition code (c : ascii) : N := N_of_ascii c.

Definition in_range (lo hi c : ascii) : bool :=
  (code lo <=? code c)%N && (code c <=? code hi)%N.

(** [str.isspace] on one character, which is also the class [\s] of [re]
    on [str] patterns: TAB..CR, FS..US and the blank. *)
Definition isspace (c : ascii) : bool :=
  in_range "009" "013" c || in_range "028" "031" c || Ascii.eqb c " ".

(** The C-locale [isspace] that [int] and [float] skip around an ASCII
    argument. *)
Definition c_isspace (c : ascii) : bool :=
  in_range "009" "013" c || Ascii.eqb c " ".

Definition isdigit (c : ascii) : bool := in_range "0" "9" c.

(** The class [\w]. *)
Definition isword (c : ascii) : bool :=
  isdigit c || in_range "A" "Z" c || in_range "a" "z" c || Ascii.eqb c "_".

Definition newline : ascii := "010".

Definition digit_val (c : ascii) : Z := Z.of_N (code c) - 48.

Definition digit_chr (d : Z) : ascii := ascii_of_N (Z.to_N (d + 48)).

(** Truthiness of a [str]: [not s] holds of the empty string only. *)
Definition nonempty (s : text) : bool :=
  match s with [] => false | _ :: _ => true end.

(** Truthiness of an optional [str]: [None] and [''] are falsy. *)
Definition truthy (v : option text) : bool :=
  match v with Some s => nonempty s | None => false end.

Fixpoint text_eqb (a b : text) : bool :=
  match a, b with
  | [], [] => true
  | x :: a', y :: b' => Ascii.eqb x y && text_eqb a' b'
  | _, _ => false
  end.

Fixpoint lstrip (s : text) : text :=
  match s with
  | c :: t => if isspace c then lstrip t else s
  | [] => []
  end.

Definition rstrip (s : text) : text := rev (lstrip (rev s)).

(** [s.strip()] *)
Definition strip (s : text) : text := rstrip (lstrip s).

(** [s.replace(old, new)] for a one-character [old]. *)
Definition replace (old : ascii) (new : text) (s : text) : text :=
  flat_map (fun c => if Ascii.eqb c old then new else [c]) s.

(** [s.split(sep)] for a one-character [sep]: never the empty list. *)
Fixpoint split (sep : ascii) (s : text) : list text :=
  match s with
  | [] => [[]]
  | c :: t =>
      if Ascii.eqb c sep then [] :: split sep t
      else match split sep t with
           | h :: r => (c :: h) :: r
           | [] => [[c]]
           end
  end.

(** [sep.join(parts)] *)
Fixpoint join (sep : text) (parts : list text) : text :=
  match parts with
  | [] => []
  | [p] => p
  | p :: rest => p ++ sep ++ join sep rest
  end.

Fixpoint startswith (p s : text) : bool :=
  match p, s with
  | [], _ => true
  | a :: p', b :: s' => Ascii.eqb a b && startswith p' s'
  | _ :: _, [] => false
  end.

(** [sub in s] *)
Fixpoint contains (sub s : text) : bool :=
  startswith sub s ||
  match s with
  | [] => false
  | _ :: t => contains sub t
  end.

Definition upper_char (c : ascii) : ascii :=
  if in_range "a" "z" c then ascii_of_N (code c - 32) else c.

(** [s.upper()] *)
Definition upper (s : text) : text := map upper_char s.

(** [any(p in s for p in phrases)] *)
Definition contains_any (phrases : list text) (s : text) : bool :=
  existsb (fun p => contains p s) phrases.

(* ================================================================= *)
(** ** Exceptions *)

(** An exception instance: its class name and the message [str(e)]. *)
Record exn : Type := mkExn { exn_class : text; exn_msg : text }.

Inductive outcome (A : Type) : Type :=
| Returns (a : A)
| Raises (e : exn).

Arguments Returns {A} a.
Arguments Raises {A} e.

Definition bind {A B} (m : outcome A) (k : A -> outcome B) : outcome B :=
  match m with
  | Returns a => k a
  | Raises e => Raises e
  end.

Notation "x <- m ;; k" := (bind m (fun x => k))
  (at level 61, m at next level, right associativity).

(** [try: body / except ...: handler], for a handler that catches all. *)
Definition try_except {A} (body : outcome A) (handler : exn -> outcome A)
  : outcome A :=
  match body with
  | Returns a => Returns a
  | Raises e => handler e
  end.

Definition ValueError (msg : string) : exn := mkExn (txt "ValueError") (txt msg).
Definition TypeError (msg : string) : exn := mkExn (txt "TypeError") (txt msg).

(* ================================================================= *)
(** ** The builtins [int] and [float] on a string *)

Fixpoint c_lstrip (s : text) : text :=
  match s with
  | c :: t => if c_isspace c then c_lstrip t else s
  | [] => []
  end.

Definition c_strip (s : text) : text := rev (c_lstrip (rev (c_lstrip s))).

(** Digits with single underscores between them; [after_us] records that the
    previous character was an underscore. *)
Fixpoint scan_digits (after_us : bool) (acc : Z) (s : text) : option Z :=
  match s with
  | [] => if after_us then None else Some acc
  | c :: t =>
      if isdigit c then scan_digits false (10 * acc + digit_val c) t
      else if Ascii.eqb c "_" && negb after_us then scan_digits true acc t
      else None
  end.

Definition digit_string (s : text) : option Z :=
  match s with
  | c :: t => if isdigit c then scan_digits false (digit_val c) t else None
  | [] => None
  end.

(** A leading sign: [(negative, rest)]. *)
Definition split_sign (s : text) : bool * text :=
  match s with
  | c :: t =>
      if Ascii.eqb c "-" then (true, t)
      else if Ascii.eqb c "+" then (false, t)
      else (false, s)
  | [] => (false, [])
  end.

(** The digits of a literal, its underscores not counted. *)
Definition digit_count (s : text) : nat := List.length (filter isdigit s).

(** [sys.get_int_max_str_digits()] as the interpreter starts with it. *)
Definition int_max_str_digits : nat := 4300.

(** [int(s)] in base ten: blanks around, a sign, digits with underscores,
    and no more digits than the interpreter's limit (CPython 3.11 and
    later).  Both faults are a [ValueError]; which of the two messages a
    text with both of them gets is not modelled. *)
Definition py_int (s : text) : outcome Z :=
  let '(neg, body) := split_sign (c_strip s) in
  match digit_string body with
  | Some n =>
      if Nat.leb (digit_count body) int_max_str_digits
      then Returns (if neg then - n else n)%Z
      else Raises (ValueError "Exceeds the limit (4300 digits) for integer string conversion")
  | None => Raises (ValueError "invalid literal for int() with base 10")
  end.

(** Python floats: IEEE binary64. *)
Definition pyfloat := spec_float.
Definition prec64 : Z := 53.
Definition emax64 : Z := 1024.

(** [0.0] *)
Definition fzero : pyfloat := S754_zero false.

(** The binary64 number nearest to [(-1)^neg * m * 10^e10] (ties to even,
    overflow to infinity), the value of a decimal literal. *)
Definition decimal_to_float (neg : bool) (m : Z) (e10 : Z) : pyfloat :=
  match m with
  | Zpos p =>
      match e10 with
      | Zneg k =>
          SFdiv prec64 emax64 (S754_finite neg p 0)
                (S754_finite false (Pos.pow 10 k) 0)
      | Z0 => SFdiv prec64 emax64 (S754_finite neg p 0) (S754_finite false 1 0)
      | Zpos k =>
          SFdiv prec64 emax64 (S754_finite neg (p * Pos.pow 10 k) 0)
                (S754_finite false 1 0)
      end
  | _ => S754_zero neg
  end.

(** Underscores in a [float] argument: allowed only between two digits;
    the text is returned without them.  [prev] is the previous character. *)
Fixpoint drop_underscores (prev : ascii) (s : text) : option text :=
  match s with
  | [] => if Ascii.eqb prev "_" then None else Some []
  | c :: t =>
      if Ascii.eqb c "_" then
        if isdigit prev then drop_underscores c t else None
      else if Ascii.eqb prev "_" && negb (isdigit c) then None
      else option_map (cons c) (drop_underscores c t)
  end.

Definition lower_char (c : ascii) : ascii :=
  if in_range "A" "Z" c then ascii_of_N (code c + 32) else c.

Definition lower (s : text) : text := map lower_char s.

(** The longest prefix of digits, and what follows it. *)
Fixpoint take_digits (s : text) : text * text :=
  match s with
  | c :: t =>
      if isdigit c then let '(ds, r) := take_digits t in (c :: ds, r)
      else ([], s)
  | [] => ([], [])
  end.

Definition digits_val (ds : text) : Z :=
  fold_left (fun a c => 10 * a + digit_val c)%Z ds 0%Z.

(** An exponent part [[eE][+-]?digits] at the head of [s]: its value and
    the rest; without digits the exponent is not read. *)
Definition take_exponent (s : text) : Z * text :=
  match s with
  | c :: t =>
      if Ascii.eqb c "e" || Ascii.eqb c "E" then
        let '(neg, r) := split_sign t in
        match take_digits r with
        | ([], _) => (0%Z, s)
        | (ds, r') => ((if neg then - digits_val ds else digits_val ds)%Z, r')
        end
      else (0%Z, s)
  | [] => (0%Z, [])
  end.

(** The number after the sign: [inf], [infinity], [nan] in any case, or
    digits with an optional point and exponent. *)
Definition float_body (neg : bool) (s : text) : option pyfloat :=
  let l := lower s in
  if text_eqb l (txt "inf") || text_eqb l (txt "infinity")
  then Some (S754_infinity neg)
  else if text_eqb l (txt "nan") then Some S754_nan
  else
    let '(ip, r1) := take_digits s in
    let '(fp, r2) :=
      match r1 with
      | c :: t => if Ascii.eqb c "." then take_digits t else ([], r1)
      | [] => ([], [])
      end in
    match ip ++ fp with
    | [] => None
    | ds =>
        let '(ex, r3) := take_exponent r2 in
        match r3 with
        | [] => Some (decimal_to_float neg (digits_val ds)
                        (ex - Z.of_nat (List.length fp)))
        | _ :: _ => None
        end
    end.

(** [float(s)] *)
Definition py_float (s : text) : outcome pyfloat :=
  let err := Raises (ValueError "could not convert string to float") in
  match c_strip s with
  | [] => err
  | body =>
      match drop_underscores "000" body with
      | None => err
      | Some b =>
          let '(neg, r) := split_sign b in
          match float_body neg r with
          | Some x => Returns x
          | None => err
          end
      end
  end.

(* ================================================================= *)
(** ** Regular expressions: the fragment of [re] the script relies on

    A backtracking matcher in continuation-passing style, with the order of
    alternatives and the greediness of [re].  Repetition is over character
    classes only, which is all the patterns of the script and of
    [strptime] use. *)

Inductive regex : Type :=
| Eps                                (* the empty pattern *)
| Chr (c : ascii)                    (* a literal character *)
| Cls (p : ascii -> bool)            (* one character of a class *)
| Seq (a b : regex)
| Alt (a b : regex)                  (* [a|b], [a] tried first *)
| Plus (p : ascii -> bool)           (* [p+], greedy *)
| LazyStar (p : ascii -> bool)       (* [p*?] *)
| Grp (i : nat) (r : regex)          (* capturing group, [groups()[i]] *)
| Bol                                (* [^] *)
| Eol.                               (* [$] *)

(** The groups of a match in progress; [None] is a group that took no part. *)
Definition captures := list (option text).

Fixpoint set_cap (i : nat) (v : text) (caps : captures) : captures :=
  match i, caps with
  | O, _ :: r => Some v :: r
  | S j, x :: r => x :: set_cap j v r
  | _, [] => []
  end.

(** What a match consumed: the prefix of [s] that ends where [s'] begins. *)
Definition consumed (s s' : text) : text :=
  firstn (List.length s - List.length s') s.

Section Matcher.
Variable R : Type.

Fixpoint plus_greedy (p : ascii -> bool) (k : text -> option R) (s : text)
  : option R :=
  match s with
  | c :: t =>
      if p c then
        match plus_greedy p k t with
        | Some r => Some r
        | None => k t
        end
      else None
  | [] => None
  end.

Fixpoint star_lazy (p : ascii -> bool) (k : text -> option R) (s : text)
  : option R :=
  match k s with
  | Some r => Some r
  | None =>
      match s with
      | c :: t => if p c then star_lazy p k t else None
      | [] => None
      end
  end.

(** [rx whole r s caps k]: match [r] at the suffix [s] of [whole], then
    continue with [k] on what is left. *)
Fixpoint rx (whole : text) (r : regex) (s : text) (caps : captures)
         (k : text -> captures -> option R) : option R :=
  match r with
  | Eps => k s caps
  | Chr c =>
      match s with
      | x :: t => if Ascii.eqb x c then k t caps else None
      | [] => None
      end
  | Cls p =>
      match s with
      | x :: t => if p x then k t caps else None
      | [] => None
      end
  | Seq a b => rx whole a s caps (fun s' caps' => rx whole b s' caps' k)
  | Alt a b =>
      match rx whole a s caps k with
      | Some res => Some res
      | None => rx whole b s caps k
      end
  | Plus p => plus_greedy p (fun s' => k s' caps) s
  | LazyStar p => star_lazy p (fun s' => k s' caps) s
  | Grp i r' =>
      rx whole r' s caps
         (fun s' caps' =>
            k s' (set_cap i (consumed s s') caps'))
  | Bol => if Nat.eqb (List.length s) (List.length whole) then k s caps else None
  | Eol =>
      match s with
      | [] => k s caps
      | [c] => if Ascii.eqb c newline then k s caps else None
      | _ => None
      end
  end.
End Matcher.

(** [re.match(r, s)] for a pattern of [n] groups: the groups and the
    unmatched rest of [s], or [None]. *)
Definition re_match (n : nat) (r : regex) (s : text)
  : option (captures * text) :=
  rx s r s (repeat None n) (fun rest caps => Some (caps, rest)).

Definition seqs (rs : list regex) : regex := fold_right Seq Eps rs.
Definition lit (s : string) : regex := seqs (map Chr (txt s)).
Definition times (n : nat) (r : regex) : regex := seqs (repeat r n).

(** [groups[i]], a group that took part in the match. *)
Definition group (i : nat) (gs : captures) : text :=
  match nth_error gs i with
  | Some (Some t) => t
  | _ => []
  end.

(* ================================================================= *)
(** ** [datetime.strptime(s, '%Y-%m-%d')] and [isoformat] *)

Record datetime : Type := mkDate { year : Z; month : Z; day : Z }.

(** [%Y] is [\d\d\d\d]. *)
Definition re_Y : regex := times 4 (Cls isdigit).

(** [%m] is [1[0-2]|0[1-9]|[1-9]]. *)
Definition re_m : regex :=
  Alt (Seq (Chr "1") (Cls (in_range "0" "2")))
      (Alt (Seq (Chr "0") (Cls (in_range "1" "9")))
           (Cls (in_range "1" "9"))).

(** [%d] is [3[0-1]|[1-2]\d|0[1-9]|[1-9]| [1-9]]. *)
Definition re_d : regex :=
  Alt (Seq (Chr "3") (Cls (in_range "0" "1")))
      (Alt (Seq (Cls (in_range "1" "2")) (Cls isdigit))
           (Alt (Seq (Chr "0") (Cls (in_range "1" "9")))
                (Alt (Cls (in_range "1" "9"))
                     (Seq (Chr " ") (Cls (in_range "1" "9")))))).

Definition re_Ymd : regex :=
  seqs [Grp 0 re_Y; Chr "-"; Grp 1 re_m; Chr "-"; Grp 2 re_d].

Definition is_leap (y : Z) : bool :=
  ((y mod 4 =? 0) && (negb (y mod 100 =? 0) || (y mod 400 =? 0)))%Z.

Definition days_in_month (y m : Z) : Z :=
  if (m =? 2)%Z then (if is_leap y then 29 else 28)
  else if ((m =? 4) || (m =? 6) || (m =? 9) || (m =? 11))%Z then 30
  else 31.

(** The constructor [datetime(y, m, d)] with its range checks. *)
Definition make_date (y m d : Z) : outcome datetime :=
  if negb ((1 <=? y) && (y <=? 9999))%Z
  then Raises (ValueError "year is out of range")
  else if negb ((1 <=? m) && (m <=? 12))%Z
  then Raises (ValueError "month must be in 1..12")
  else if negb ((1 <=? d) && (d <=? days_in_month y m))%Z
  then Raises (ValueError "day is out of range for month")
  else Returns (mkDate y m d).

Definition strptime_Ymd (s : text) : outcome datetime :=
  match re_match 3 re_Ymd s with
  | None => Raises (ValueError "time data does not match format")
  | Some (found, rest) =>
      match rest with
      | _ :: _ => Raises (ValueError "unconverted data remains")
      | [] =>
          y <- py_int (group 0 found) ;;
          m <- py_int (group 1 found) ;;
          d <- py_int (group 2 found) ;;
          make_date y m d
      end
  end.

(** [z] in [width] decimal digits, zero-padded (for [0 <= z < 10^width]). *)
Fixpoint pad_dec (width : nat) (z : Z) : text :=
  match width with
  | O => []
  | S w => pad_dec w (z / 10) ++ [digit_chr (z mod 10)]
  end.

(** [dt.isoformat()] of a date at midnight. *)
Definition isoformat (dt : datetime) : text :=
  pad_dec 4 (year dt) ++ txt "-" ++ pad_dec 2 (month dt) ++ txt "-" ++
  pad_dec 2 (day dt) ++ txt "T00:00:00".

(* ================================================================= *)
(** ** Field normalizers *)

(** [clean_value]: a cell is a string or [None]. *)
Definition clean_value (value : option text) : option text :=
  match value with
  | None => None
  | Some s =>
      let v := replace newline (txt " ") (strip s) in
      if text_eqb v [] || text_eqb v (txt "None") then None else Some v
  end.

(** [parse_date] *)
Definition parse_date (date_str : option text) : outcome (option text) :=
  match date_str with
  | None => Returns None
  | Some [] => Returns None
  | Some s =>
      try_except
        (let s' := replace newline (txt "-") (strip s) in
         dt <- strptime_Ymd s' ;;
         Returns (Some (isoformat dt)))
        (fun _ => Returns None)
  end.

(** [parse_float] *)
Definition parse_float (value : option text) : outcome pyfloat :=
  match value with
  | None => Returns fzero
  | Some [] => Returns fzero
  | Some s =>
      try_except
        (let v := replace newline [] (strip s) in
         if contains (txt "E-8") v || contains (txt "e-8") v
         then Returns fzero
         else py_float v)
        (fun _ => Returns fzero)
  end.

(** [parse_int] *)
Definition parse_int (value : option text) : outcome Z :=
  match value with
  | None => Returns 0%Z
  | Some [] => Returns 0%Z
  | Some s =>
      try_except (py_int (replace newline [] (strip s)))
                 (fun _ => Returns 0%Z)
  end.

(* ================================================================= *)
(** ** Tag extractor *)

(** The keyword table, in the order the dictionary lists it. *)
Definition sports_keywords : list (text * list text) :=
  [ (txt "NFL", [txt "NFL"]);
    (txt "NBA", [txt "NBA"]);
    (txt "EPL", [txt "EPL"; txt "EPLGAME"]);
    (txt "Premier League", [txt "PREMIERLEAGUE"]);
    (txt "MLB", [txt "MLB"]);
    (txt "NHL", [txt "NHL"]);
    (txt "Soccer", [txt "SOCCER"]);
    (txt "Football", [txt "FOOTBALL"]) ].

(** [extract_tags] *)
Definition extract_tags (description symbol : text) : list text :=
  let text_ := upper (description ++ txt " " ++ symbol) in
  let league :=
    match find (fun entry => contains_any (snd entry) text_) sports_keywords with
    | Some entry => [fst entry]
    | None => []
    end in
  league ++ (if nonempty description then [strip description] else []).

(* ================================================================= *)
(** ** Records *)

Record Transaction : Type := mkTransaction {
  tradeDate : option text;
  assetType : option text;
  qtyLong : Z;
  qtyShort : Z;
  subtype : option text;
  symbol : option text;
  description : option text;
  exchange : text;
  expDate : option text;
  tradePrice : pyfloat;
  tradeType : option text;
  commission : pyfloat;
  exchangeFees : pyfloat;
  nfaFees : pyfloat;
  totalFees : pyfloat;
  currency : option text;
  sourceFile : text;
  tags : list text
}.

(** [x or ''] *)
Definition or_empty (v : option text) : text :=
  match v with
  | Some (c :: t) => c :: t
  | _ => []
  end.

(** [l[i]]: [IndexError] out of range. *)
Definition item {A} (l : list A) (i : nat) : outcome A :=
  match nth_error l i with
  | Some a => Returns a
  | None => Raises (mkExn (txt "IndexError") (txt "list index out of range"))
  end.

(** What one pass of a loop body does. *)
Inductive step (A : Type) : Type :=
| Append (a : A)      (* [transactions.append(a)] *)
| Continue.           (* [continue] *)

Arguments Append {A} a.
Arguments Continue {A}.

(** A loop body under [try: ... except Exception: continue]. *)
Definition caught {A} (body : outcome (step A)) : step A :=
  match body with
  | Returns st => st
  | Raises _ => Continue
  end.

Definition emit {A} (st : step A) (transactions : list A) : list A :=
  match st with
  | Append a => transactions ++ [a]
  | Continue => transactions
  end.

(* ================================================================= *)
(** ** Table-based parsers *)

Definition row := list (option text).

(** The part of the loop body of [parse_monthly_trade_confirmations] that
    follows the layout branches: the mandatory-field check, the tags and
    the record. *)
Definition monthly_record
    (trade_date asset_type : option text) (qty_long qty_short : Z)
    (subtype_ symbol_ exp_date : option text) (trade_price : pyfloat)
    (currency_ trade_type description_ : option text) (filename : text)
  : step Transaction :=
  if negb (truthy trade_date) || negb (truthy symbol_) then Continue
  else
    let tags_ := extract_tags (or_empty description_) (or_empty symbol_) in
    Append {| tradeDate := trade_date; assetType := asset_type;
              qtyLong := qty_long; qtyShort := qty_short;
              subtype := subtype_; symbol := symbol_;
              description := description_; exchange := txt "Kalshi";
              expDate := exp_date; tradePrice := trade_price;
              tradeType := trade_type;
              commission := fzero; exchangeFees := fzero;
              nfaFees := fzero; totalFees := fzero;
              currency := currency_; sourceFile := filename;
              tags := tags_ |}.

(** The [try] block of [parse_monthly_trade_confirmations] on one row. *)
Definition monthly_row (r : row) (filename : text)
  : outcome (step Transaction) :=
  let cleaned_row := map clean_value r in
  let n := List.length r in
  if 13 <=? n then
    c0 <- item cleaned_row 0 ;; trade_date <- parse_date c0 ;;
    asset_type <- item cleaned_row 1 ;;
    c2 <- item cleaned_row 2 ;; qty_long <- parse_int c2 ;;
    c3 <- item cleaned_row 3 ;; qty_short <- parse_int c3 ;;
    subtype_ <- item cleaned_row 4 ;;
    symbol_ <- item cleaned_row 5 ;;
    c8 <- item cleaned_row 8 ;; exp_date <- parse_date c8 ;;
    c9 <- item cleaned_row 9 ;; trade_price <- parse_float c9 ;;
    currency_ <- item cleaned_row 10 ;;
    trade_type <- item cleaned_row 11 ;;
    description_ <- (if 12 <? n then item cleaned_row 12 else Returns (Some [])) ;;
    Returns (monthly_record trade_date asset_type qty_long qty_short subtype_
               symbol_ exp_date trade_price currency_ trade_type description_
               filename)
  else
    c0 <- item cleaned_row 0 ;; trade_date <- parse_date c0 ;;
    asset_type <- item cleaned_row 1 ;;
    c2 <- item cleaned_row 2 ;; qty_long <- parse_int c2 ;;
    c3 <- item cleaned_row 3 ;; qty_short <- parse_int c3 ;;
    subtype_ <- item cleaned_row 4 ;;
    c5 <- item cleaned_row 5 ;; trade_price <- parse_float c5 ;;
    symbol_ <- (if 7 <? n then item cleaned_row 7 else Returns (Some [])) ;;
    description_ <- (if 8 <? n then item cleaned_row 8 else Returns (Some [])) ;;
    Returns (monthly_record trade_date asset_type qty_long qty_short subtype_
               symbol_ None trade_price (Some (txt "USD")) (Some (txt "Trade"))
               description_ filename).

(** The loop [for row in table[1:]] with its accumulator. *)
Fixpoint monthly_loop (rows : list row) (filename : text)
         (transactions : list Transaction) : list Transaction :=
  match rows with
  | [] => transactions
  | r :: rest =>
      if List.length r <? 8 then monthly_loop rest filename transactions
      else monthly_loop rest filename
             (emit (caught (monthly_row r filename)) transactions)
  end.

(** [parse_monthly_trade_confirmations] *)
Definition parse_monthly_trade_confirmations (table : list row) (filename : text)
  : list Transaction :=
  if List.length table <? 2 then []
  else monthly_loop (tl table) filename [].

(** The tail of the loop body of [parse_trade_confirmation_summary]. *)
Definition summary_record
    (trade_date asset_type : option text) (qty_long qty_short : Z)
    (subtype_ : option text) (avg_long : pyfloat)
    (symbol_ description_ exp_date : option text)
    (commission_ exchange_fees nfa_fees total_fees : pyfloat)
    (currency_ trade_type : option text) (filename : text)
  : step Transaction :=
  if negb (truthy trade_date) || negb (truthy symbol_) then Continue
  else
    let tags_ := extract_tags (or_empty description_) (or_empty symbol_) in
    Append {| tradeDate := trade_date; assetType := asset_type;
              qtyLong := qty_long; qtyShort := qty_short;
              subtype := subtype_; symbol := symbol_;
              description := description_; exchange := txt "Kalshi";
              expDate := exp_date; tradePrice := avg_long;
              tradeType := trade_type;
              commission := commission_; exchangeFees := exchange_fees;
              nfaFees := nfa_fees; totalFees := total_fees;
              currency := currency_; sourceFile := filename;
              tags := tags_ |}.

(** The [try] block of [parse_trade_confirmation_summary] on one row. *)
Definition summary_row (r : row) (filename : text)
  : outcome (step Transaction) :=
  let cleaned_row := map clean_value r in
  let n := List.length r in
  let fee i :=
    if i <? n then (c <- item cleaned_row i ;; parse_float c)
    else Returns fzero in
  c0 <- item cleaned_row 0 ;; trade_date <- parse_date c0 ;;
  asset_type <- item cleaned_row 1 ;;
  c2 <- item cleaned_row 2 ;; qty_long <- parse_int c2 ;;
  c3 <- item cleaned_row 3 ;; qty_short <- parse_int c3 ;;
  subtype_ <- item cleaned_row 4 ;;
  c5 <- item cleaned_row 5 ;; avg_long <- parse_float c5 ;;
  if 17 <=? n then
    symbol_ <- item cleaned_row 7 ;;
    description_ <- item cleaned_row 8 ;;
    exp_date <- (if 11 <? n then (c <- item cleaned_row 11 ;; parse_date c)
                 else Returns None) ;;
    commission_ <- fee 12 ;;
    exchange_fees <- fee 13 ;;
    nfa_fees <- fee 14 ;;
    total_fees <- fee 15 ;;
    currency_ <- (if 16 <? n then item cleaned_row 16
                  else Returns (Some (txt "USD"))) ;;
    Returns (summary_record trade_date asset_type qty_long qty_short subtype_
               avg_long symbol_ description_ exp_date commission_
               exchange_fees nfa_fees total_fees currency_
               (Some (txt "Trade")) filename)
  else if 10 <=? n then
    symbol_ <- (if 7 <? n then item cleaned_row 7 else Returns (Some [])) ;;
    description_ <- (if 8 <? n then item cleaned_row 8 else Returns (Some [])) ;;
    Returns (summary_record trade_date asset_type qty_long qty_short subtype_
               avg_long symbol_ description_ None fzero fzero fzero fzero
               (Some (txt "USD")) (Some (txt "Trade")) filename)
  else
    symbol_ <- (if 6 <? n then item cleaned_row 6 else Returns (Some [])) ;;
    description_ <- (if 7 <? n then item cleaned_row 7 else Returns (Some [])) ;;
    Returns (summary_record trade_date asset_type qty_long qty_short subtype_
               avg_long symbol_ description_ None fzero fzero fzero fzero
               (Some (txt "USD")) (Some (txt "Trade")) filename).

Fixpoint summary_loop (rows : list row) (filename : text)
         (transactions : list Transaction) : list Transaction :=
  match rows with
  | [] => transactions
  | r :: rest =>
      if List.length r <? 8 then summary_loop rest filename transactions
      else summary_loop rest filename
             (emit (caught (summary_row r filename)) transactions)
  end.

(** [parse_trade_confirmation_summary] *)
Definition parse_trade_confirmation_summary (table : list row) (filename : text)
  : list Transaction :=
  if List.length table <? 2 then []
  else summary_loop (tl table) filename [].

(* ================================================================= *)
(** ** Line-based parsers *)

Definition re_date : regex :=
  seqs [times 4 (Cls isdigit); Chr "-"; times 2 (Cls isdigit); Chr "-";
        times 2 (Cls isdigit)].

Definition not_space (c : ascii) : bool := negb (isspace c).

(** [.] matches anything but a newline. *)
Definition dot (c : ascii) : bool := negb (Ascii.eqb c newline).

(** The class [[\d.E-]], which [[-\d.E-]] equals. *)
Definition number_char (c : ascii) : bool :=
  isdigit c || Ascii.eqb c "." || Ascii.eqb c "E" || Ascii.eqb c "-".

(** The first ten fields, common to both line patterns:
    [^(\d{4}-\d{2}-\d{2})\s+(\w+)\s+(\d+)\s+(\d+)\s+(YES|NO)\s+(\S+)\s+(\w+)\s+(\d{4}-\d{2}-\d{2})\s+([-\d.E-]+)\s+(\w+)\s+] *)
Definition re_fields : list regex :=
  [Bol; Grp 0 re_date; Plus isspace; Grp 1 (Plus isword); Plus isspace;
   Grp 2 (Plus isdigit); Plus isspace; Grp 3 (Plus isdigit); Plus isspace;
   Grp 4 (Alt (lit "YES") (lit "NO")); Plus isspace;
   Grp 5 (Plus not_space); Plus isspace; Grp 6 (Plus isword); Plus isspace;
   Grp 7 re_date; Plus isspace; Grp 8 (Plus number_char); Plus isspace;
   Grp 9 (Plus isword); Plus isspace].

(** The pattern of [parse_text_transactions], ending in [(.*?)\s+(.+)$]. *)
Definition text_pattern : regex :=
  seqs (re_fields ++
        [Grp 10 (LazyStar dot); Plus isspace; Grp 11 (Plus dot); Eol]).

(** The pattern of [parse_purchase_and_sale_summary_text], ending in
    [(.+)$]. *)
Definition summary_pattern : regex :=
  seqs (re_fields ++ [Grp 10 (Plus dot); Eol]).

(** The record both line parsers build, after the mandatory-field check. *)
Definition line_record
    (trade_date : option text) (asset_type : text) (qty_long qty_short : Z)
    (subtype_ symbol_ exchange_ : text) (exp_date : option text)
    (trade_price : pyfloat) (currency_ trade_type description_ filename : text)
  : step Transaction :=
  if negb (truthy trade_date) || negb (nonempty symbol_) then Continue
  else
    let tags_ := extract_tags description_ symbol_ in
    Append {| tradeDate := trade_date; assetType := Some asset_type;
              qtyLong := qty_long; qtyShort := qty_short;
              subtype := Some subtype_; symbol := Some symbol_;
              description := Some description_; exchange := exchange_;
              expDate := exp_date; tradePrice := trade_price;
              tradeType := Some trade_type;
              commission := fzero; exchangeFees := fzero;
              nfaFees := fzero; totalFees := fzero;
              currency := Some currency_; sourceFile := filename;
              tags := tags_ |}.

(** The [try] block of [parse_text_transactions] on the groups of a match. *)
Definition text_line (groups : captures) (filename : text)
  : outcome (step Transaction) :=
  trade_date <- parse_date (Some (group 0 groups)) ;;
  let asset_type := group 1 groups in
  qty_long <- parse_int (Some (group 2 groups)) ;;
  qty_short <- parse_int (Some (group 3 groups)) ;;
  let subtype_ := group 4 groups in
  let symbol_ := group 5 groups in
  let exchange_ := group 6 groups in
  exp_date <- parse_date (Some (group 7 groups)) ;;
  trade_price <- parse_float (Some (group 8 groups)) ;;
  let currency_ := group 9 groups in
  let trade_type := strip (group 10 groups) in
  let description_ := strip (group 11 groups) in
  Returns (line_record trade_date asset_type qty_long qty_short subtype_
             symbol_ exchange_ exp_date trade_price currency_ trade_type
             description_ filename).

(** One pass of the loop of [parse_text_transactions]. *)
Definition text_step (raw_line filename : text) : step Transaction :=
  let line := strip raw_line in
  if negb (nonempty line) then Continue
  else
    match re_match 12 text_pattern line with
    | None => Continue
    | Some (groups, _) => caught (text_line groups filename)
    end.

Fixpoint text_loop (lines : list text) (filename : text)
         (transactions : list Transaction) : list Transaction :=
  match lines with
  | [] => transactions
  | l :: rest =>
      text_loop rest filename (emit (text_step l filename) transactions)
  end.

(** [parse_text_transactions] *)
Definition parse_text_transactions (text_ filename : text) : list Transaction :=
  text_loop (split newline text_) filename [].

(** The headers of the sections that may follow. *)
Definition next_sections : list text :=
  [txt "Journal Entries"; txt "Open Positions"; txt "Account Summary"].

(** The [try] block of [parse_purchase_and_sale_summary_text]. *)
Definition summary_line (groups : captures) (filename : text)
  : outcome (step Transaction) :=
  trade_date <- parse_date (Some (group 0 groups)) ;;
  let asset_type := group 1 groups in
  qty_long <- parse_int (Some (group 2 groups)) ;;
  qty_short <- parse_int (Some (group 3 groups)) ;;
  let subtype_ := group 4 groups in
  let symbol_ := group 5 groups in
  let exchange_ := group 6 groups in
  exp_date <- parse_date (Some (group 7 groups)) ;;
  gross_pnl <- parse_float (Some (group 8 groups)) ;;
  let currency_ := group 9 groups in
  let description_ := strip (group 10 groups) in
  Returns (line_record trade_date asset_type qty_long qty_short subtype_
             symbol_ exchange_ exp_date gross_pnl currency_
             (txt "Closed Position") description_ filename).

(** What the loop of [parse_purchase_and_sale_summary_text] does with a line
    that is not empty and names no following section. *)
Definition summary_step (line filename : text) : step Transaction :=
  match re_match 11 summary_pattern line with
  | None => Continue
  | Some (groups, _) => caught (summary_line groups filename)
  end.

(** The loop of [parse_purchase_and_sale_summary_text]: it [break]s at the
    first line naming a following section. *)
Fixpoint purchase_sale_loop (lines : list text) (filename : text)
         (transactions : list Transaction) : list Transaction :=
  match lines with
  | [] => transactions
  | l :: rest =>
      let line := strip l in
      if negb (nonempty line) then purchase_sale_loop rest filename transactions
      else if contains_any next_sections line then transactions
      else purchase_sale_loop rest filename
             (emit (summary_step line filename) transactions)
  end.

(** [parse_purchase_and_sale_summary_text] *)
Definition parse_purchase_and_sale_summary_text (text_ filename : text)
  : list Transaction :=
  purchase_sale_loop (split newline text_) filename [].

(* ================================================================= *)
(** ** Engine driver *)

Record ParseResult : Type := mkResult {
  success : bool;
  error : option text;           (* the key is present on failure only *)
  filename_ : text;
  transactionCount : nat;
  transactions_ : list Transaction
}.

(** What [page.extract_text()] gives: text, [None], or an exception. *)
Definition page := outcome (option text).

(** An opened document: its [pages] (reading them may raise) and what
    leaving the [with] block does when the handle is released. *)
Record pdf_document : Type := mkPdf {
  pdf_pages : outcome (list page);
  pdf_exit : outcome unit
}.

Definition section_header : text := txt "Purchase and Sale Summary".

(** The loop over the pages: [all_text += text + "\n"] for each page whose
    text is not empty. *)
Fixpoint collect_text (pages : list page) (all_text : text) : outcome text :=
  match pages with
  | [] => Returns all_text
  | p :: rest =>
      t <- p ;;
      if truthy t then collect_text rest (all_text ++ or_empty t ++ [newline])
      else collect_text rest all_text
  end.

(** [with doc as pdf: body]: the handle is released on every path, and an
    exception of the release replaces the result. *)
Definition with_document {A} (doc : pdf_document)
           (body : pdf_document -> outcome A) : outcome A :=
  let r := body doc in
  match pdf_exit doc with
  | Returns _ => r
  | Raises e => Raises e
  end.

(** The index of the first line that satisfies [p], counted from [i]. *)
Fixpoint first_index (p : text -> bool) (lines : list text) (i : nat)
  : option nat :=
  match lines with
  | [] => None
  | l :: rest => if p l then Some i else first_index p rest (S i)
  end.

(** [lines[a:b]] *)
Definition slice {A} (l : list A) (a b : nat) : list A :=
  firstn (b - a) (skipn a l).

(** [start_idx]: the line after the first one that holds the header. *)
Definition start_index (lines : list text) : option nat :=
  option_map S (first_index (contains section_header) lines 0).

(** [end_idx]: the first line from [start] on that names a following
    section, or the number of lines. *)
Definition end_index (lines : list text) (start : nat) : nat :=
  match first_index (contains_any next_sections) (skipn start lines) start with
  | Some i => i
  | None => List.length lines
  end.

Definition failure (message filename : text) : ParseResult :=
  {| success := false; error := Some message; filename_ := filename;
     transactionCount := 0; transactions_ := [] |}.

Section Driver.
(** The collaborators: [pdfplumber.open] and [os.path.basename]. *)
Variable pdfplumber_open : text -> outcome pdf_document.
Variable basename : text -> text.

(** The text of the whole document, as the first block of the [try]
    computes it. *)
Definition extract_all_text (pdf_path : text) : outcome text :=
  doc <- pdfplumber_open pdf_path ;;
  with_document doc
    (fun pdf => pages <- pdf_pages pdf ;; collect_text pages []).

(** The body of the [try] of [parse_pdf], for any function [parser] in the
    place of the call of [parse_purchase_and_sale_summary_text]: what the
    driver hands to that call is then read off the result. *)
Definition parse_pdf_body_with (parser : text -> text -> list Transaction)
           (pdf_path filename : text) : outcome ParseResult :=
  all_text <- extract_all_text pdf_path ;;
  if negb (contains section_header all_text) then
    Returns (failure (txt "Purchase and Sale Summary section not found")
                     filename)
  else
    let lines := split newline all_text in
    (* [range(start_idx, len(lines))] raises on [None] *)
    start_idx <-
      match start_index lines with
      | Some i => Returns i
      | None => Raises (TypeError "'NoneType' object cannot be interpreted as an integer")
      end ;;
    let end_idx := end_index lines start_idx in
    let section_lines := slice lines start_idx end_idx in
    let section_text := join [newline] section_lines in
    let transactions := parser section_text filename in
    Returns {| success := true; error := None; filename_ := filename;
               transactionCount := List.length transactions;
               transactions_ := transactions |}.

(** [parse_pdf] around that body. *)
Definition parse_pdf_with (parser : text -> text -> list Transaction)
           (pdf_path : text) : outcome ParseResult :=
  let filename := basename pdf_path in
  try_except (parse_pdf_body_with parser pdf_path filename)
             (fun e => Returns (failure (exn_msg e) filename)).

(** The body of the [try] of [parse_pdf]. *)
Definition parse_pdf_body (pdf_path filename : text) : outcome ParseResult :=
  parse_pdf_body_with parse_purchase_and_sale_summary_text pdf_path filename.

(** [parse_pdf] *)
Definition parse_pdf (pdf_path : text) : outcome ParseResult :=
  parse_pdf_with parse_purchase_and_sale_summary_text pdf_path.
End Driver.

(** [os.path.basename] on POSIX: what follows the last slash. *)
Definition posix_basename (p : text) : text :=
  last (split "/" p) [].

(* ================================================================= *)
(** ** Vocabulary of the specification *)

(** The text [parse_float] hands to [float]: stripped, newlines deleted. *)
Definition float_argument (s : text) : text := replace newline [] (strip s).

(** The text [parse_int] hands to [int]. *)
Definition int_argument (s : text) : text := replace newline [] (strip s).

(** A well-formed float literal: one that [float] accepts. *)
Definition float_accepts (s : text) : bool :=
  match py_float s with Returns _ => true | Raises _ => false end.

(** A well-formed integer literal: one that [int] accepts. *)
Definition int_accepts (s : text) : bool :=
  match py_int s with Returns _ => true | Raises _ => false end.

(** [tradeDate] is present and [symbol] is a string that is not empty. *)
Definition has_mandatory_fields (t : Transaction) : Prop :=
  (exists d, tradeDate t = Some d /\ d <> []) /\
  (exists s, symbol t = Some s /\ s <> []).

(** The line of the end-to-end scenario. *)
Definition scenario_line : text :=
  txt "2025-09-01 SW 20 0 YES KXEPLGAME-25SEP14MCIMUN-MCI Kalshi 2025-09-14 -10.08 USD Manchester City".

(** The binary64 number written [-10.08], which is
    [-5674535530486825 * 2^-49]. *)
Definition float_minus_10_08 : pyfloat :=
  S754_finite true 5674535530486825 (-49).

(** The binary64 number written [1E-08], which is
    [6044629098073146 * 2^-79]. *)
Definition float_1e_08 : pyfloat :=
  S754_finite false 6044629098073146 (-79).

(** [12.0] *)
Definition float_12 : pyfloat := S754_finite false 6755399441055744 (-49).

(** The number 12 broken over two lines. *)
Definition broken_number : text := txt "1" ++ [newline] ++ txt "2".

(** A line is read alone when it holds no newline. *)
Definition one_line (l : text) : Prop := ~ In newline l.

(** ** Sample documents *)

Definition sample_filename : text := txt "statement.pdf".

(** A statement of one page: a title, the section with the scenario line,
    and the section that follows. *)
Definition sample_page : text :=
  txt "Monthly Statement" ++ [newline] ++
  txt "Purchase and Sale Summary" ++ [newline] ++
  scenario_line ++ [newline] ++
  txt "Open Positions" ++ [newline] ++
  txt "2025-09-02 SW 5 0 NO KXNFLGAME-25SEP14 Kalshi 2025-09-15 1.25 USD Later".

(** A page without the section. *)
Definition other_page : text :=
  txt "Monthly Statement" ++ [newline] ++ txt "Journal Entries".

(** A collaborator: one path cannot be opened, one holds no section, every
    other path holds the sample statement after an empty page. *)
Definition sample_open (path : text) : outcome pdf_document :=
  if text_eqb path (txt "missing.pdf") then
    Raises (mkExn (txt "FileNotFoundError")
                  (txt "[Errno 2] No such file or directory: 'missing.pdf'"))
  else if text_eqb path (txt "other.pdf") then
    Returns {| pdf_pages := Returns [Returns (Some other_page)];
               pdf_exit := Returns tt |}
  else
    Returns {| pdf_pages := Returns [Returns None; Returns (Some sample_page)];
               pdf_exit := Returns tt |}.

(** A record that holds nothing but a text and a file name. *)
Definition handed_text (section_text filename : text) : Transaction :=
  {| tradeDate := None; assetType := None; qtyLong := 0; qtyShort := 0;
     subtype := None; symbol := None; description := Some section_text;
     exchange := []; expDate := None; tradePrice := fzero; tradeType := None;
     commission := fzero; exchangeFees := fzero; nfaFees := fzero;
     totalFees := fzero; currency := None; sourceFile := filename;
     tags := [] |}.

(** A stand-in for the parser of the section: it answers with the text and
    the file name it was handed, in one record. *)
Definition recording_parser (section_text filename : text)
  : list Transaction :=
  [handed_text section_text filename].

(** A line that, read alone by [parse_text_transactions], produces the
    record [r]. *)
Definition text_produces (filename l : text) (r : Transaction) : Prop :=
  one_line l /\ parse_text_transactions l filename = [r].

(** The same for [parse_purchase_and_sale_summary_text]. *)
Definition summary_produces (filename l : text) (r : Transaction) : Prop :=
  one_line l /\ parse_purchase_and_sale_summary_text l filename = [r].

(** The record of the scenario line. *)
Definition scenario_transaction (filename : text) : Transaction :=
  {| tradeDate := Some (txt "2025-09-01T00:00:00");
     assetType := Some (txt "SW");
     qtyLong := 20; qtyShort := 0;
     subtype := Some (txt "YES");
     symbol := Some (txt "KXEPLGAME-25SEP14MCIMUN-MCI");
     description := Some (txt "Manchester City");
     exchange := txt "Kalshi";
     expDate := Some (txt "2025-09-14T00:00:00");
     tradePrice := float_minus_10_08;
     tradeType := Some (txt "Closed Position");
     commission := fzero; exchangeFees := fzero;
     nfaFees := fzero; totalFees := fzero;
     currency := Some (txt "USD");
     sourceFile := filename;
     tags := [txt "EPL"; txt "Manchester City"] |}.

(** *** Dates *)

(** The text [parse_date] hands to [strptime]: stripped, each newline made
    a hyphen. *)
Definition date_argument (s : text) : text :=
  replace newline (txt "-") (strip s).

(** The strict pattern [YYYY-MM-DD]: four digits, a hyphen, two digits, a
    hyphen, two digits, and nothing else. *)
Definition strict_ymd (s : text) : bool :=
  match s with
  | [y1; y2; y3; y4; h1; m1; m2; h2; d1; d2] =>
      isdigit y1 && isdigit y2 && isdigit y3 && isdigit y4 &&
      Ascii.eqb h1 "-" && isdigit m1 && isdigit m2 &&
      Ascii.eqb h2 "-" && isdigit d1 && isdigit d2
  | _ => false
  end.

(** Year, month and day name a day of the calendar. *)
Definition valid_date (y m d : Z) : bool :=
  ((1 <=? y) && (y <=? 9999) && (1 <=? m) && (m <=? 12) &&
   (1 <=? d) && (d <=? days_in_month y m))%Z.

(** The ways [%m] reads a month: two digits, or one digit below ten. *)
Definition month_text (m : Z) (ms : text) : Prop :=
  ((1 <= m <= 12)%Z /\ ms = pad_dec 2 m) \/
  ((1 <= m <= 9)%Z /\ ms = [digit_chr m]).

(** The ways [%d] reads a day: two digits, or below ten one digit, alone or
    after a blank. *)
Definition day_text (d : Z) (ds : text) : Prop :=
  ((1 <= d <= 31)%Z /\ ds = pad_dec 2 d) \/
  ((1 <= d <= 9)%Z /\ ds = [digit_chr d]) \/
  ((1 <= d <= 9)%Z /\ ds = [" "%char; digit_chr d]).

(** The texts [strptime] reads as year [y], month [m] and day [d]. *)
Definition accepted_form (s : text) (y m d : Z) : Prop :=
  (0 <= y <= 9999)%Z /\
  exists ms ds,
    month_text m ms /\ day_text d ds /\
    s = pad_dec 4 y ++ txt "-" ++ ms ++ txt "-" ++ ds.

(** Year, month and day as the digits of a strict text write them. *)
Definition strict_fields (s : text) : Z * Z * Z :=
  (digits_val (firstn 4 s), digits_val (firstn 2 (skipn 5 s)),
   digits_val (skipn 8 s)).

(** A date wrapped over three lines, with blanks around. *)
Definition wrapped_date : text :=
  txt " 2025" ++ [newline] ++ txt "09" ++ [newline] ++ txt "01 ".

(** *** Tags *)

(** The league labels of the keyword table. *)
Definition league_labels : list text := map fst sports_keywords.

(** *** Rows and records *)

(** A row the table parsers read: eight cells or more. *)
Definition wide_enough (r : row) : bool := 8 <=? List.length r.

(** An ISO-8601 timestamp at midnight of a day of the calendar. *)
Definition iso_midnight (t : text) : Prop :=
  exists y m d, valid_date y m d = true /\ t = isoformat (mkDate y m d).

(** [None], or an ISO-8601 timestamp at midnight. *)
Definition optional_iso (v : option text) : Prop :=
  v = None \/ exists t, v = Some t /\ iso_midnight t.

(** The tags of a record are those of its own description and symbol. *)
Definition tags_from_fields (t : Transaction) : Prop :=
  tags t = extract_tags (or_empty (description t)) (or_empty (symbol t)).

(** The four fee fields are [0.0]. *)
Definition no_fees (t : Transaction) : Prop :=
  commission t = fzero /\ exchangeFees t = fzero /\
  nfaFees t = fzero /\ totalFees t = fzero.

(** [tradeDate] is a timestamp, [expDate] a timestamp or [None]. *)
Definition well_dated (t : Transaction) : Prop :=
  (exists d, tradeDate t = Some d /\ iso_midnight d) /\
  optional_iso (expDate t).

(** What the [try] blocks of the four parsers put in every record. *)
Definition record_facts (filename : text) (t : Transaction) : Prop :=
  sourceFile t = filename /\ optional_iso (tradeDate t) /\
  optional_iso (expDate t) /\ tags_from_fields t.

(** The texts of the pages that gave one. *)
Definition page_texts (texts : list (option text)) : list text :=
  map or_empty (filter truthy texts).

(** *** Matches and fields *)

(** The matches of a pattern, without the order in which the matcher tries
    them: [matches w r s caps s' caps'] says that [r] takes the text between
    [s] and its suffix [s'], turning the groups [caps] into [caps']. *)
Inductive matches (w : text) :
  regex -> text -> captures -> text -> captures -> Prop :=
| M_Eps s caps : matches w Eps s caps s caps
| M_Chr c t caps : matches w (Chr c) (c :: t) caps t caps
| M_Cls (p : ascii -> bool) c t caps :
    p c = true -> matches w (Cls p) (c :: t) caps t caps
| M_Seq a b s caps s1 caps1 s2 caps2 :
    matches w a s caps s1 caps1 -> matches w b s1 caps1 s2 caps2 ->
    matches w (Seq a b) s caps s2 caps2
| M_AltL a b s caps s' caps' :
    matches w a s caps s' caps' -> matches w (Alt a b) s caps s' caps'
| M_AltR a b s caps s' caps' :
    matches w b s caps s' caps' -> matches w (Alt a b) s caps s' caps'
| M_Plus (p : ascii -> bool) a t caps :
    a <> [] -> Forall (fun c => p c = true) a ->
    matches w (Plus p) (a ++ t) caps t caps
| M_LazyStar (p : ascii -> bool) a t caps :
    Forall (fun c => p c = true) a ->
    matches w (LazyStar p) (a ++ t) caps t caps
| M_Grp i r s caps s' caps' :
    matches w r s caps s' caps' ->
    matches w (Grp i r) s caps s' (set_cap i (consumed s s') caps')
| M_Bol s caps :
    List.length s = List.length w -> matches w Bol s caps s caps
| M_Eol s caps :
    s = [] \/ s = [newline] -> matches w Eol s caps s caps.

(** The first ten fields of a line, as the patterns constrain them. *)
Record line_fields : Type := mkFields {
  f_date : text; f_asset : text; f_long : text; f_short : text;
  f_side : text; f_symbol : text; f_exchange : text; f_exp : text;
  f_number : text; f_currency : text
}.

(** A text that is not empty, of characters of one class. *)
Definition all_of (p : ascii -> bool) (s : text) : Prop :=
  s <> [] /\ Forall (fun c => p c = true) s.

(** The shape the patterns give the ten fields. *)
Definition fields_shaped (f : line_fields) : Prop :=
  strict_ymd (f_date f) = true /\ all_of isword (f_asset f) /\
  all_of isdigit (f_long f) /\ all_of isdigit (f_short f) /\
  (f_side f = txt "YES" \/ f_side f = txt "NO") /\
  all_of not_space (f_symbol f) /\ all_of isword (f_exchange f) /\
  strict_ymd (f_exp f) = true /\ all_of number_char (f_number f) /\
  all_of isword (f_currency f).

(** The ten fields as the groups 0 to 9 of a match. *)
Definition set_fields (f : line_fields) (caps : captures) : captures :=
  set_cap 9 (f_currency f) (set_cap 8 (f_number f) (set_cap 7 (f_exp f)
  (set_cap 6 (f_exchange f) (set_cap 5 (f_symbol f) (set_cap 4 (f_side f)
  (set_cap 3 (f_short f) (set_cap 2 (f_long f) (set_cap 1 (f_asset f)
  (set_cap 0 (f_date f) caps))))))))).

(** What the patterns guarantee of a record of the line parsers. *)
Definition line_shaped (t : Transaction) : Prop :=
  (subtype t = Some (txt "YES") \/ subtype t = Some (txt "NO")) /\
  (0 <= qtyLong t)%Z /\ (0 <= qtyShort t)%Z /\
  (exists s, symbol t = Some s /\ all_of not_space s) /\
  (exists a, assetType t = Some a /\ all_of isword a) /\
  (exists c, currency t = Some c /\ all_of isword c) /\
  all_of isword (exchange t).

(** *** More samples *)

(** A cell as the table extraction gives it, wrapped over two lines. *)
Definition wrapped_cell : text :=
  txt "  Manchester" ++ [newline] ++ txt "City ".

(** A row of eight cells, in the compact layout. *)
Definition sample_row : row :=
  [Some (txt "2025-09-01"); Some (txt "SW"); Some (txt "20"); Some (txt "0");
   Some (txt "YES"); Some (txt "0.52"); None;
   Some (txt "KXEPLGAME-25SEP14MCIMUN-MCI")].

(** A document whose second page cannot be read. *)
Definition broken_page : exn :=
  mkExn (txt "PDFSyntaxError") (txt "page 2 is damaged").

Definition broken_open (path : text) : outcome pdf_document :=
  Returns {| pdf_pages :=
               Returns (map Returns [Some sample_page] ++
                        Raises broken_page :: [Returns (Some other_page)]);
             pdf_exit := Returns tt |}.

(** The same document, whose handle cannot be released either. *)
Definition stuck_handle : exn :=
  mkExn (txt "OSError") (txt "handle is gone").

Definition stuck_open (path : text) : outcome pdf_document :=
  Returns {| pdf_pages :=
               Returns (map Returns [Some sample_page] ++
                        Raises broken_page :: [Returns (Some other_page)]);
             pdf_exit := Raises stuck_handle |}.

(* ================================================================= *)
(** * Properties *)

Unset Implicit Arguments.

(** ** Text lemmas *)

Lemma startswith_spec (p s : text) :
  startswith p s = true <-> exists post, s = p ++ post.
Proof.
  revert s; induction p as [|a p IH]; intros s; simpl.
  - split; [intros _; now exists s | reflexivity].
  - destruct s as [|b s].
    + split; [discriminate | intros [post H]; discriminate].
    + rewrite andb_true_iff, Ascii.eqb_eq, IH. split.
      * intros [-> [post ->]]. now exists post.
      * intros [post H]. injection H as -> ->. split; [reflexivity | now exists post].
Qed.

(** [sub in s] holds exactly when [s] is [pre ++ sub ++ post]. *)
Lemma contains_spec (sub s : text) :
  contains sub s = true <-> exists pre post, s = pre ++ sub ++ post.
Proof.
  induction s as [|c s IH].
  - simpl. rewrite orb_false_r, startswith_spec. split.
    + intros [post H]. now exists [], post.
    + intros (pre & post & H). destruct pre as [|x pre]; [|discriminate].
      now exists post.
  - cbn [contains]. rewrite orb_true_iff, startswith_spec, IH. split.
    + intros [[post H] | (pre & post & H)].
      * now exists [], post.
      * exists (c :: pre), post. now rewrite H.
    + intros (pre & post & H). destruct pre as [|x pre].
      * left. now exists post.
      * right. injection H as -> H. now exists pre, post.
Qed.

Lemma contains_any_spec (phrases : list text) (s : text) :
  contains_any phrases s = true <->
  exists p, In p phrases /\ contains p s = true.
Proof. unfold contains_any. apply existsb_exists. Qed.

Lemma replace_app (old : ascii) (new a b : text) :
  replace old new (a ++ b) = replace old new a ++ replace old new b.
Proof. unfold replace. apply flat_map_app. Qed.

(** Stripping on the left stops at the first character that is no space. *)
Lemma lstrip_keeps (a : text) (c : ascii) (r : text) :
  isspace c = false -> exists a', lstrip (a ++ c :: r) = a' ++ c :: r.
Proof.
  intros Hc. induction a as [|x a IH]; simpl.
  - rewrite Hc. now exists [].
  - destruct (isspace x); [exact IH | now exists (x :: a)].
Qed.

Lemma rstrip_keeps (a : text) (c : ascii) (b : text) :
  isspace c = false -> exists b', rstrip (a ++ c :: b) = a ++ c :: b'.
Proof.
  intros Hc. unfold rstrip.
  rewrite rev_app_distr. simpl rev. rewrite <- app_assoc. simpl.
  destruct (lstrip_keeps (rev b) c (rev a) Hc) as [b' ->].
  exists (rev b'). rewrite rev_app_distr. simpl.
  now rewrite rev_involutive, <- app_assoc.
Qed.

(** A phrase that neither starts nor ends with a space survives [strip]. *)
Lemma strip_keeps (a : text) (c : ascii) (mid : text) (d : ascii) (b : text) :
  isspace c = false -> isspace d = false ->
  exists a' b', strip (a ++ c :: mid ++ d :: b) = a' ++ c :: mid ++ d :: b'.
Proof.
  intros Hc Hd. unfold strip.
  destruct (lstrip_keeps a c (mid ++ d :: b) Hc) as [a' ->].
  replace (a' ++ c :: mid ++ d :: b) with ((a' ++ c :: mid) ++ d :: b)
    by now rewrite <- app_assoc.
  destruct (rstrip_keeps (a' ++ c :: mid) d b Hd) as [b' ->].
  exists a', b'. now rewrite <- app_assoc.
Qed.

Lemma join_cons (sep p : text) (rest : list text) :
  rest <> [] -> join sep (p :: rest) = p ++ sep ++ join sep rest.
Proof. destruct rest; [congruence | reflexivity]. Qed.

Lemma split_not_nil (sep : ascii) (s : text) : split sep s <> [].
Proof.
  destruct s as [|c s]; simpl; [discriminate|].
  destruct (Ascii.eqb c sep); [discriminate|].
  destruct (split sep s); discriminate.
Qed.

(** The lines of a text, joined again, are the text. *)
Lemma join_split (sep : ascii) (s : text) : join [sep] (split sep s) = s.
Proof.
  induction s as [|c s IH]; [reflexivity|].
  simpl. destruct (Ascii.eqb_spec c sep) as [->|Hne].
  - rewrite join_cons by apply split_not_nil. now rewrite IH.
  - destruct (split sep s) as [|h r] eqn:E.
    + now destruct (split_not_nil sep s).
    + destruct r as [|h' r'].
      * simpl in *. now rewrite IH.
      * rewrite join_cons by discriminate. rewrite join_cons in IH by discriminate.
        now rewrite <- IH.
Qed.

(** A part of a joined text is a piece of it. *)
Lemma join_part (sep : text) (parts : list text) (l : text) :
  In l parts -> exists pre post, join sep parts = pre ++ l ++ post.
Proof.
  induction parts as [|p rest IH]; [contradiction|].
  intros [-> | Hin].
  - destruct rest as [|q rest'].
    + exists [], []. simpl. now rewrite app_nil_r.
    + exists [], (sep ++ join sep (q :: rest')). reflexivity.
  - destruct (IH Hin) as (pre & post & E).
    destruct rest as [|q rest']; [contradiction|].
    exists (p ++ sep ++ pre), post.
    change (join sep (p :: q :: rest')) with (p ++ sep ++ join sep (q :: rest')).
    rewrite E. now rewrite <- !app_assoc.
Qed.

(** A phrase found in a line is found in the whole text. *)
Lemma contains_line (sub : text) (s l : text) :
  In l (split newline s) -> contains sub l = true -> contains sub s = true.
Proof.
  intros Hin Hc. apply contains_spec in Hc. destruct Hc as (a & b & ->).
  destruct (join_part [newline] _ _ Hin) as (pre & post & E).
  rewrite join_split in E. apply contains_spec.
  exists (pre ++ a), (b ++ post). rewrite E. now rewrite <- !app_assoc.
Qed.

(** ** The engine driver *)

Lemma bind_returns {A B} (m : outcome A) (k : A -> outcome B) (b : B) :
  bind m k = Returns b -> exists a, m = Returns a /\ k a = Returns b.
Proof. destruct m as [a|e]; simpl; [now exists a | discriminate]. Qed.

Lemma first_index_skip (p : text -> bool) (pre : list text) (l : text)
      (rest : list text) (i : nat) :
  Forall (fun x => p x = false) pre -> p l = true ->
  first_index p (pre ++ l :: rest) i = Some (i + List.length pre).
Proof.
  intros Hpre Hl. revert i. induction Hpre as [|x pre Hx _ IH]; intros i; simpl.
  - rewrite Hl. f_equal. lia.
  - rewrite Hx, IH. f_equal. lia.
Qed.

Lemma skipn_past {A} (pre : list A) (x : A) (rest : list A) :
  skipn (S (List.length pre)) (pre ++ x :: rest) = rest.
Proof. induction pre as [|y pre IH]; [reflexivity | exact IH]. Qed.

Lemma firstn_exact {A} (a b : list A) : firstn (List.length a) (a ++ b) = a.
Proof. induction a as [|x a IH]; simpl; [reflexivity | now rewrite IH]. Qed.

(** The section of a text laid out as: lines without the header, the header
    line, the section, a line naming a following section, the rest. *)
Lemma section_located (pre : list text) (hdr : text) (mid : list text)
      (bnd : text) (post : list text) :
  Forall (fun l => contains section_header l = false) pre ->
  contains section_header hdr = true ->
  Forall (fun l => contains_any next_sections l = false) mid ->
  contains_any next_sections bnd = true ->
  let lines := pre ++ hdr :: mid ++ bnd :: post in
  exists start,
    start_index lines = Some start /\
    slice lines start (end_index lines start) = mid.
Proof.
  intros Hpre Hhdr Hmid Hbnd lines. exists (S (List.length pre)). subst lines.
  unfold start_index, end_index, slice.
  rewrite (first_index_skip _ pre hdr _ 0 Hpre Hhdr). split; [reflexivity|].
  rewrite skipn_past.
  rewrite (first_index_skip _ mid bnd post _ Hmid Hbnd).
  replace (S (List.length pre) + List.length mid - S (List.length pre))
    with (List.length mid) by lia.
  apply firstn_exact.
Qed.

Section DriverProperties.
Variable pdfplumber_open : text -> outcome pdf_document.
Variable basename : text -> text.

Local Abbreviation parse := (parse_pdf pdfplumber_open basename).
Local Abbreviation body := (parse_pdf_body pdfplumber_open).
Local Abbreviation extract := (extract_all_text pdfplumber_open).

(** C1. [parse_pdf] never raises: whatever the collaborator does, it
    returns a result; and when an exception [e] is raised inside the
    [try] block (opening the document, reading the pages, extracting,
    locating the section, parsing), the result is the failure envelope
    with [error = str(e)], no transaction and a count of zero. *)
Theorem parse_pdf_never_raises (pdf_path : text) :
  (exists r, parse pdf_path = Returns r) /\
  (forall e, body pdf_path (basename pdf_path) = Raises e ->
     parse pdf_path =
     Returns {| success := false; error := Some (exn_msg e);
                filename_ := basename pdf_path;
                transactionCount := 0; transactions_ := [] |}).
Proof.
  unfold parse_pdf, parse_pdf_with, parse_pdf_body. split.
  - destruct (parse_pdf_body_with pdfplumber_open _ pdf_path (basename pdf_path));
      simpl; eauto.
  - intros e ->. reflexivity.
Qed.

(** An exception of [pdfplumber.open] is one raised in the [try] block. *)
Lemma open_failure_raises (pdf_path filename : text) (e : exn) :
  pdfplumber_open pdf_path = Raises e ->
  body pdf_path filename = Raises e.
Proof.
  intros H. unfold parse_pdf_body, parse_pdf_body_with, extract_all_text.
  now rewrite H.
Qed.

(** C2. A document whose extracted text does not hold the phrase
    [Purchase and Sale Summary] gives the failure envelope with the
    message [Purchase and Sale Summary section not found]. *)
Theorem parse_pdf_section_not_found (pdf_path all_text : text) :
  extract pdf_path = Returns all_text ->
  contains section_header all_text = false ->
  parse pdf_path =
  Returns {| success := false;
             error := Some (txt "Purchase and Sale Summary section not found");
             filename_ := basename pdf_path;
             transactionCount := 0; transactions_ := [] |}.
Proof.
  intros Hx Hc.
  unfold parse_pdf, parse_pdf_with, parse_pdf_body_with. rewrite Hx. simpl. rewrite Hc.
  reflexivity.
Qed.

(** C9. When the lines of the extracted text are: lines without the
    header, the header line, lines [mid] naming no following section, a
    line naming one ([Open Positions], [Journal Entries] or
    [Account Summary]), and anything after, then the lines cut out are
    exactly [mid], and the text handed to the parser is exactly these lines
    joined: whatever function [parser] stands in the place of the call of
    [parse_purchase_and_sale_summary_text], the result is the success
    envelope of [parser] on the joined lines [mid].  The header line, the
    boundary line and the lines after it reach no parser; [parse_pdf]
    itself is the case of the parser of the source. *)
Theorem parse_pdf_section_slice (pdf_path all_text : text)
        (pre : list text) (hdr : text) (mid : list text) (bnd : text)
        (post : list text) :
  extract pdf_path = Returns all_text ->
  split newline all_text = pre ++ hdr :: mid ++ bnd :: post ->
  Forall (fun l => contains section_header l = false) pre ->
  contains section_header hdr = true ->
  Forall (fun l => contains_any next_sections l = false) mid ->
  contains_any next_sections bnd = true ->
  let lines := split newline all_text in
  (exists start, start_index lines = Some start /\
                 slice lines start (end_index lines start) = mid) /\
  (forall parser : text -> text -> list Transaction,
      let transactions := parser (join [newline] mid) (basename pdf_path) in
      parse_pdf_with pdfplumber_open basename parser pdf_path =
      Returns {| success := true; error := None;
                 filename_ := basename pdf_path;
                 transactionCount := List.length transactions;
                 transactions_ := transactions |}) /\
  let transactions :=
    parse_purchase_and_sale_summary_text (join [newline] mid)
                                         (basename pdf_path) in
  parse pdf_path =
  Returns {| success := true; error := None;
             filename_ := basename pdf_path;
             transactionCount := List.length transactions;
             transactions_ := transactions |}.
Proof.
  intros Hx Hsplit Hpre Hhdr Hmid Hbnd lines.
  destruct (section_located pre hdr mid bnd post Hpre Hhdr Hmid Hbnd)
    as (start & Hstart & Hslice).
  subst lines. rewrite Hsplit. split; [now exists start|].
  assert (Hin : contains section_header all_text = true).
  { apply (contains_line section_header all_text hdr); [|exact Hhdr].
    rewrite Hsplit. apply in_or_app. right. now left. }
  assert (Hany : forall parser : text -> text -> list Transaction,
             parse_pdf_with pdfplumber_open basename parser pdf_path =
             Returns {| success := true; error := None;
                        filename_ := basename pdf_path;
                        transactionCount :=
                          List.length (parser (join [newline] mid)
                                              (basename pdf_path));
                        transactions_ :=
                          parser (join [newline] mid) (basename pdf_path) |}).
  { intros parser. unfold parse_pdf_with, parse_pdf_body_with.
    rewrite Hx. simpl. rewrite Hin. simpl. rewrite Hsplit, Hstart. simpl.
    rewrite Hslice. reflexivity. }
  split; [exact Hany|].
  exact (Hany parse_purchase_and_sale_summary_text).
Qed.
End DriverProperties.

(** ** The numeric normalizers *)

Lemma contains_strip (c : ascii) (mid : text) (d : ascii) (s : text) :
  isspace c = false -> isspace d = false ->
  contains (c :: mid ++ [d]) s = true ->
  contains (c :: mid ++ [d]) (strip s) = true.
Proof.
  intros Hc Hd H. apply contains_spec in H. destruct H as (a & b & ->).
  replace (a ++ (c :: mid ++ [d]) ++ b) with (a ++ c :: mid ++ d :: b)
    by (simpl; now rewrite <- app_assoc).
  destruct (strip_keeps a c mid d b Hc Hd) as (a' & b' & ->).
  apply contains_spec. exists a', b'. simpl. now rewrite <- app_assoc.
Qed.

Lemma contains_replace (old : ascii) (new sub s : text) :
  replace old new sub = sub ->
  contains sub s = true -> contains sub (replace old new s) = true.
Proof.
  intros Hsub H. apply contains_spec in H. destruct H as (a & b & ->).
  apply contains_spec. exists (replace old new a), (replace old new b).
  now rewrite !replace_app, Hsub.
Qed.

Lemma sentinel_survives (sub s : text) :
  sub = txt "E-8" \/ sub = txt "e-8" ->
  contains sub s = true -> contains sub (float_argument s) = true.
Proof.
  intros Hsub H. unfold float_argument.
  apply contains_replace; [destruct Hsub as [-> | ->]; reflexivity|].
  destruct Hsub as [-> | ->];
    apply (contains_strip _ [("-")%char] "8"); auto.
Qed.

Lemma contains_nonempty (sub s : text) :
  sub <> [] -> contains sub s = true -> s <> [].
Proof.
  intros Hne H ->. apply contains_spec in H. destruct H as (a & b & E).
  destruct a; [destruct sub; [congruence | discriminate] | discriminate].
Qed.

(** Whatever holds the sentinel is normalised to [0.0]. *)
Lemma parse_float_sentinel (s : text) :
  contains (txt "E-8") s = true \/ contains (txt "e-8") s = true ->
  parse_float (Some s) = Returns fzero.
Proof.
  intros H.
  assert (Hne : s <> []).
  { destruct H as [H | H]; eapply contains_nonempty; try exact H; discriminate. }
  destruct s as [|c s]; [congruence|].
  unfold parse_float. fold (float_argument (c :: s)).
  destruct H as [H | H].
  - rewrite (sentinel_survives _ _ (or_introl eq_refl) H). reflexivity.
  - rewrite (sentinel_survives _ _ (or_intror eq_refl) H).
    rewrite orb_true_r. reflexivity.
Qed.

(** C6, as amended.  A float literal in scientific notation whose exponent
    is written [-8], that is a mantissa followed by [E-8] or [e-8], is
    normalised to exactly [0.0], whatever the mantissa. *)
Theorem parse_float_exponent_minus_8 (mantissa : text) :
  parse_float (Some (mantissa ++ txt "E-8")) = Returns fzero /\
  parse_float (Some (mantissa ++ txt "e-8")) = Returns fzero.
Proof.
  split; apply parse_float_sentinel; [left | right];
    apply contains_spec; exists mantissa, []; reflexivity.
Qed.

(** C6 as stated fails: the sentinel is the text [E-8], not the exponent's
    value.  [1E-08] is a literal in scientific notation, [float] reads its
    exponent as -8, and [parse_float] gives the number [float("1E-08")],
    which is not [0.0]. *)
Lemma exponent_minus_08_is_parsed :
  take_digits (txt "1E-08") = (txt "1", txt "E-08") /\
  take_exponent (txt "E-08") = ((-8)%Z, []) /\
  py_float (txt "1E-08") = Returns float_1e_08 /\
  parse_float (Some (txt "1E-08")) = Returns float_1e_08 /\
  float_1e_08 <> fzero.
Proof. repeat split; try reflexivity. discriminate. Qed.

(** C10. [parse_float] gives [0.0] for every string that holds [E-8] or
    [e-8] anywhere; among them are well-formed literals whose exponent is
    not -8: [float("1.5E-80")] is a number other than zero, and
    [parse_float] makes it [0.0]. *)
Theorem parse_float_sentinel_overmatches :
  (forall s : text,
      contains (txt "E-8") s = true \/ contains (txt "e-8") s = true ->
      parse_float (Some s) = Returns fzero) /\
  (exists x, py_float (txt "1.5E-80") = Returns x /\ x <> fzero /\
             parse_float (Some (txt "1.5E-80")) = Returns fzero).
Proof.
  split; [exact parse_float_sentinel|].
  exists (S754_finite false 8009951384703413 (-318)).
  repeat split; try reflexivity. discriminate.
Qed.

Lemma parse_float_returns (v : option text) : exists x, parse_float v = Returns x.
Proof.
  destruct v as [[|c s]|]; simpl; eauto.
  destruct (_ || _); simpl; eauto.
  destruct (py_float _); simpl; eauto.
Qed.

Lemma parse_int_returns (v : option text) : exists n, parse_int v = Returns n.
Proof.
  destruct v as [[|c s]|]; simpl; eauto.
  destruct (py_int _); simpl; eauto.
Qed.

(** C7 as stated fails: a number broken over two lines is not a
    well-formed literal, [int] and [float] reject it; the normalizers delete
    the newline first, and give 12 and 12.0, not 0 and 0.0. *)
Lemma broken_number_is_rejoined :
  int_accepts broken_number = false /\
  float_accepts broken_number = false /\
  parse_int (Some broken_number) = Returns 12%Z /\
  parse_float (Some broken_number) = Returns float_12 /\
  float_12 <> fzero.
Proof. repeat split; try reflexivity. discriminate. Qed.

(** C7, as amended.  Neither normalizer raises, on any input ([None]
    included); an empty string, or one that [float] (for [parse_float]) or
    [int] (for [parse_int]) rejects once the normalizer has stripped it and
    deleted its newlines, gives [0.0] and [0]. *)
Theorem parse_numbers_total (s : text) :
  (forall v, exists x, parse_float v = Returns x) /\
  (forall v, exists n, parse_int v = Returns n) /\
  (s = [] \/ float_accepts (float_argument s) = false ->
   parse_float (Some s) = Returns fzero) /\
  (s = [] \/ int_accepts (int_argument s) = false ->
   parse_int (Some s) = Returns 0%Z).
Proof.
  split; [exact parse_float_returns|].
  split; [exact parse_int_returns|].
  split.
  - intros [-> | H]; [reflexivity|].
    destruct s as [|c s]; [reflexivity|].
    unfold parse_float. fold (float_argument (c :: s)).
    unfold float_accepts in H.
    destruct (_ || _); [reflexivity|].
    destruct (py_float _); [discriminate | reflexivity].
  - intros [-> | H]; [reflexivity|].
    destruct s as [|c s]; [reflexivity|].
    unfold parse_int. fold (int_argument (c :: s)).
    unfold int_accepts in H.
    destruct (py_int _); [discriminate | reflexivity].
Qed.

(** ** Mandatory fields *)

Lemma truthy_some (v : option text) :
  truthy v = true -> exists s, v = Some s /\ s <> [].
Proof.
  destruct v as [[|c s]|]; simpl; try discriminate.
  intros _. exists (c :: s). split; [reflexivity | discriminate].
Qed.

Lemma monthly_record_mandatory
      trade_date asset_type qty_long qty_short subtype_ symbol_ exp_date
      trade_price currency_ trade_type description_ filename t :
  monthly_record trade_date asset_type qty_long qty_short subtype_ symbol_
                 exp_date trade_price currency_ trade_type description_
                 filename = Append t ->
  has_mandatory_fields t.
Proof.
  unfold monthly_record.
  destruct (truthy trade_date) eqn:Hd; [|discriminate].
  destruct (truthy symbol_) eqn:Hs; [|discriminate].
  simpl. intros H. injection H as <-.
  split; simpl; now apply truthy_some.
Qed.

Lemma summary_record_mandatory
      trade_date asset_type qty_long qty_short subtype_ avg_long symbol_
      description_ exp_date commission_ exchange_fees nfa_fees total_fees
      currency_ trade_type filename t :
  summary_record trade_date asset_type qty_long qty_short subtype_ avg_long
                 symbol_ description_ exp_date commission_ exchange_fees
                 nfa_fees total_fees currency_ trade_type filename
  = Append t ->
  has_mandatory_fields t.
Proof.
  unfold summary_record.
  destruct (truthy trade_date) eqn:Hd; [|discriminate].
  destruct (truthy symbol_) eqn:Hs; [|discriminate].
  simpl. intros H. injection H as <-.
  split; simpl; now apply truthy_some.
Qed.

Lemma line_record_mandatory
      trade_date asset_type qty_long qty_short subtype_ symbol_ exchange_
      exp_date trade_price currency_ trade_type description_ filename t :
  line_record trade_date asset_type qty_long qty_short subtype_ symbol_
              exchange_ exp_date trade_price currency_ trade_type
              description_ filename = Append t ->
  has_mandatory_fields t.
Proof.
  unfold line_record.
  destruct (truthy trade_date) eqn:Hd; [|discriminate].
  destruct symbol_ as [|c s]; [discriminate|].
  simpl. intros H. injection H as <-.
  split; simpl; [now apply truthy_some|].
  exists (c :: s). split; [reflexivity | discriminate].
Qed.

(** Peel the binds of a [try] block that returned. *)
Ltac peel H :=
  repeat (let a := fresh "a" in
          let Ha := fresh "Ha" in
          apply bind_returns in H; destruct H as (a & Ha & H)).

Lemma caught_append {A} (body : outcome (step A)) (a : A) :
  caught body = Append a -> body = Returns (Append a).
Proof. destruct body as [[x|]|e]; simpl; congruence. Qed.

Lemma monthly_row_mandatory (r : row) (filename : text) (t : Transaction) :
  monthly_row r filename = Returns (Append t) -> has_mandatory_fields t.
Proof.
  unfold monthly_row. intros H.
  destruct (13 <=? List.length r); peel H; injection H as H;
    eapply monthly_record_mandatory; exact H.
Qed.

Lemma summary_row_mandatory (r : row) (filename : text) (t : Transaction) :
  summary_row r filename = Returns (Append t) -> has_mandatory_fields t.
Proof.
  unfold summary_row. intros H.
  do 10 (let a := fresh "a" in
         let Ha := fresh "Ha" in
         apply bind_returns in H; destruct H as (a & Ha & H)).
  destruct (17 <=? List.length r); [|destruct (10 <=? List.length r)];
    peel H; injection H as H; eapply summary_record_mandatory; exact H.
Qed.

Lemma text_line_mandatory (groups : captures) (filename : text) (t : Transaction) :
  text_line groups filename = Returns (Append t) -> has_mandatory_fields t.
Proof.
  unfold text_line. intros H. peel H. injection H as H.
  eapply line_record_mandatory; exact H.
Qed.

Lemma summary_line_mandatory (groups : captures) (filename : text)
      (t : Transaction) :
  summary_line groups filename = Returns (Append t) -> has_mandatory_fields t.
Proof.
  unfold summary_line. intros H. peel H. injection H as H.
  eapply line_record_mandatory; exact H.
Qed.

Lemma emit_invariant (P : Transaction -> Prop) (st : step Transaction)
      (acc : list Transaction) :
  (forall t, st = Append t -> P t) -> Forall P acc -> Forall P (emit st acc).
Proof.
  intros Hst Hacc. destruct st as [t|]; simpl; [|exact Hacc].
  apply Forall_app. split; [exact Hacc | constructor; auto].
Qed.

Lemma monthly_loop_mandatory rows filename acc :
  Forall has_mandatory_fields acc ->
  Forall has_mandatory_fields (monthly_loop rows filename acc).
Proof.
  revert acc. induction rows as [|r rows IH]; intros acc Hacc; simpl; [exact Hacc|].
  destruct (List.length r <? 8); apply IH; [exact Hacc|].
  apply emit_invariant; [|exact Hacc].
  intros t Ht. apply caught_append in Ht. eapply monthly_row_mandatory; exact Ht.
Qed.

Lemma summary_loop_mandatory rows filename acc :
  Forall has_mandatory_fields acc ->
  Forall has_mandatory_fields (summary_loop rows filename acc).
Proof.
  revert acc. induction rows as [|r rows IH]; intros acc Hacc; simpl; [exact Hacc|].
  destruct (List.length r <? 8); apply IH; [exact Hacc|].
  apply emit_invariant; [|exact Hacc].
  intros t Ht. apply caught_append in Ht. eapply summary_row_mandatory; exact Ht.
Qed.

Lemma text_step_mandatory (l filename : text) (t : Transaction) :
  text_step l filename = Append t -> has_mandatory_fields t.
Proof.
  unfold text_step. destruct (negb _); [discriminate|].
  destruct (re_match _ _ _) as [[groups rest]|]; [|discriminate].
  intros H. apply caught_append in H. eapply text_line_mandatory; exact H.
Qed.

Lemma summary_step_mandatory (l filename : text) (t : Transaction) :
  summary_step l filename = Append t -> has_mandatory_fields t.
Proof.
  unfold summary_step.
  destruct (re_match _ _ _) as [[groups rest]|]; [|discriminate].
  intros H. apply caught_append in H. eapply summary_line_mandatory; exact H.
Qed.

Lemma text_loop_mandatory lines filename acc :
  Forall has_mandatory_fields acc ->
  Forall has_mandatory_fields (text_loop lines filename acc).
Proof.
  revert acc. induction lines as [|l lines IH]; intros acc Hacc; simpl; [exact Hacc|].
  apply IH, emit_invariant; [|exact Hacc].
  intros t Ht. eapply text_step_mandatory; exact Ht.
Qed.

Lemma purchase_sale_loop_mandatory lines filename acc :
  Forall has_mandatory_fields acc ->
  Forall has_mandatory_fields (purchase_sale_loop lines filename acc).
Proof.
  revert acc. induction lines as [|l lines IH]; intros acc Hacc;
    cbn [purchase_sale_loop]; [exact Hacc|].
  destruct (negb (nonempty (strip l))); [now apply IH|].
  destruct (contains_any next_sections (strip l)); [exact Hacc|].
  apply IH, emit_invariant; [|exact Hacc].
  intros t Ht. eapply summary_step_mandatory; exact Ht.
Qed.

(** C3. Every record any of the four parsers emits has a [tradeDate] and a
    [symbol] that is not empty.  The parsers return the list of records and
    nothing else: a row or line without either adds no record and no
    error. *)
Theorem parsers_emit_mandatory_fields
        (table : list row) (text_ filename : text) :
  Forall has_mandatory_fields (parse_monthly_trade_confirmations table filename) /\
  Forall has_mandatory_fields (parse_trade_confirmation_summary table filename) /\
  Forall has_mandatory_fields (parse_text_transactions text_ filename) /\
  Forall has_mandatory_fields
         (parse_purchase_and_sale_summary_text text_ filename).
Proof.
  unfold parse_monthly_trade_confirmations, parse_trade_confirmation_summary,
    parse_text_transactions, parse_purchase_and_sale_summary_text.
  repeat split.
  - destruct (_ <? _); [constructor | now apply monthly_loop_mandatory].
  - destruct (_ <? _); [constructor | now apply summary_loop_mandatory].
  - now apply text_loop_mandatory.
  - now apply purchase_sale_loop_mandatory.
Qed.

(** ** The end-to-end scenario *)

(** [float_minus_10_08] is the binary64 number nearest to -10.08: it is
    within half a unit in the last place, [2^-50], of -1008/100. *)
Lemma float_minus_10_08_nearest :
  (2 * Z.abs (100 * 5674535530486825 - 1008 * 2 ^ 49) <= 100)%Z.
Proof. vm_compute. discriminate. Qed.

(** C4. The scenario line, as the text of the section, yields exactly one
    record, with the eleven field values the scenario lists. *)
Theorem scenario_record (filename : text) :
  exists t,
    parse_purchase_and_sale_summary_text scenario_line filename = [t] /\
    tradeDate t = Some (txt "2025-09-01T00:00:00") /\
    qtyLong t = 20%Z /\
    qtyShort t = 0%Z /\
    subtype t = Some (txt "YES") /\
    symbol t = Some (txt "KXEPLGAME-25SEP14MCIMUN-MCI") /\
    exchange t = txt "Kalshi" /\
    expDate t = Some (txt "2025-09-14T00:00:00") /\
    tradePrice t = float_minus_10_08 /\
    currency t = Some (txt "USD") /\
    tradeType t = Some (txt "Closed Position") /\
    tags t = [txt "EPL"; txt "Manchester City"].
Proof.
  eexists. split; [vm_compute; reflexivity|].
  repeat split.
Qed.

(** The same record comes out of the driver on the sample statement, where
    the line stands between the header and [Open Positions]. *)
Example scenario_through_driver :
  exists t,
    parse_pdf sample_open posix_basename (txt "in/statement.pdf") =
    Returns {| success := true; error := None;
               filename_ := sample_filename;
               transactionCount := 1; transactions_ := [t] |} /\
    parse_purchase_and_sale_summary_text scenario_line sample_filename = [t].
Proof. eexists. split; vm_compute; reflexivity. Qed.

(** ** Instances *)

(** A path that cannot be opened: the exception of [pdfplumber.open] becomes
    the failure envelope. *)
Lemma parse_pdf_never_raises_witness :
  parse_pdf_body sample_open (txt "missing.pdf") (posix_basename (txt "missing.pdf"))
  = Raises (mkExn (txt "FileNotFoundError")
                  (txt "[Errno 2] No such file or directory: 'missing.pdf'")) /\
  parse_pdf sample_open posix_basename (txt "missing.pdf") =
  Returns {| success := false;
             error := Some (txt "[Errno 2] No such file or directory: 'missing.pdf'");
             filename_ := posix_basename (txt "missing.pdf");
             transactionCount := 0; transactions_ := [] |}.
Proof.
  split; [reflexivity|].
  apply (proj2 (parse_pdf_never_raises sample_open posix_basename
                  (txt "missing.pdf"))
               (mkExn (txt "FileNotFoundError")
                  (txt "[Errno 2] No such file or directory: 'missing.pdf'"))).
  reflexivity.
Defined.

(** A statement without the section. *)
Lemma parse_pdf_section_not_found_witness :
  extract_all_text sample_open (txt "other.pdf") = Returns (other_page ++ [newline]) /\
  contains section_header (other_page ++ [newline]) = false /\
  parse_pdf sample_open posix_basename (txt "other.pdf") =
  Returns {| success := false;
             error := Some (txt "Purchase and Sale Summary section not found");
             filename_ := posix_basename (txt "other.pdf");
             transactionCount := 0; transactions_ := [] |}.
Proof.
  split; [reflexivity|]. split; [reflexivity|].
  apply (parse_pdf_section_not_found sample_open posix_basename
           (txt "other.pdf") (other_page ++ [newline])); reflexivity.
Defined.

(** The sample statement: the stand-in parser is handed the scenario line
    and nothing else, and so is the parser of the source. *)
Lemma parse_pdf_section_slice_witness :
  parse_pdf_with sample_open posix_basename recording_parser
                 (txt "in/statement.pdf") =
  Returns {| success := true; error := None;
             filename_ := txt "statement.pdf";
             transactionCount := 1;
             transactions_ :=
               [handed_text scenario_line (txt "statement.pdf")] |} /\
  parse_pdf sample_open posix_basename (txt "in/statement.pdf") =
  Returns {| success := true; error := None;
             filename_ := txt "statement.pdf";
             transactionCount := 1;
             transactions_ := [scenario_transaction (txt "statement.pdf")] |}.
Proof.
  destruct (parse_pdf_section_slice sample_open posix_basename
              (txt "in/statement.pdf") (sample_page ++ [newline])
              [txt "Monthly Statement"] (txt "Purchase and Sale Summary")
              [scenario_line] (txt "Open Positions")
              [txt "2025-09-02 SW 5 0 NO KXNFLGAME-25SEP14 Kalshi 2025-09-15 1.25 USD Later"; []])
    as (_ & Hany & Hsource).
  - reflexivity.
  - reflexivity.
  - repeat constructor.
  - reflexivity.
  - repeat constructor.
  - reflexivity.
  - split; [exact (Hany recording_parser) | exact Hsource].
Defined.

(** A literal with the sentinel, blanks around it. *)
Lemma parse_float_sentinel_overmatches_witness :
  contains (txt "E-8") (txt " 2.5E-8 ") = true /\
  parse_float (Some (txt " 2.5E-8 ")) = Returns fzero.
Proof.
  split; [reflexivity|].
  apply (proj1 parse_float_sentinel_overmatches (txt " 2.5E-8 ")).
  left. reflexivity.
Defined.

(** A text neither [float] nor [int] accepts. *)
Lemma parse_numbers_total_witness :
  float_accepts (float_argument (txt "12a")) = false /\
  int_accepts (int_argument (txt "12a")) = false /\
  parse_float (Some (txt "12a")) = Returns fzero /\
  parse_int (Some (txt "12a")) = Returns 0%Z.
Proof.
  split; [reflexivity|]. split; [reflexivity|].
  destruct (parse_numbers_total (txt "12a")) as (_ & _ & Hf & Hi).
  split; [apply Hf | apply Hi]; right; reflexivity.
Defined.

(** ** Independence of the lines *)

Lemma split_one_line (sep : ascii) (l : text) :
  ~ In sep l -> split sep l = [l].
Proof.
  induction l as [|c l IH]; intros Hin; [reflexivity|].
  simpl. destruct (Ascii.eqb_spec c sep) as [->|Hne].
  - exfalso. apply Hin. now left.
  - rewrite IH; [reflexivity|]. intros H. apply Hin. now right.
Qed.

Lemma split_line_then (sep : ascii) (l rest : text) :
  ~ In sep l -> split sep (l ++ [sep] ++ rest) = l :: split sep rest.
Proof.
  induction l as [|c l IH]; intros Hin.
  - simpl. now rewrite Ascii.eqb_refl.
  - change ((c :: l) ++ [sep] ++ rest) with (c :: (l ++ [sep] ++ rest)).
    cbn [split]. destruct (Ascii.eqb_spec c sep) as [->|Hne].
    + exfalso. apply Hin. now left.
    + rewrite IH; [reflexivity|]. intros H. apply Hin. now right.
Qed.

(** Lines without newlines, joined and split again, are the same lines. *)
Lemma split_join (sep : ascii) (ls : list text) :
  ls <> [] -> Forall (fun l => ~ In sep l) ls ->
  split sep (join [sep] ls) = ls.
Proof.
  intros Hne H. revert Hne.
  induction H as [|l ls Hl Hls IH]; intros Hne; [now destruct Hne|].
  destruct ls as [|l' ls'].
  - simpl. now apply split_one_line.
  - rewrite join_cons by discriminate.
    rewrite split_line_then by exact Hl.
    rewrite IH by discriminate. reflexivity.
Qed.

Lemma text_loop_acc (lines : list text) (filename : text)
      (acc : list Transaction) :
  text_loop lines filename acc = acc ++ text_loop lines filename [].
Proof.
  revert acc. induction lines as [|l lines IH]; intros acc; simpl.
  - now rewrite app_nil_r.
  - rewrite IH. rewrite (IH (emit _ [])).
    destruct (text_step l filename); simpl; [|reflexivity].
    now rewrite <- app_assoc.
Qed.

Lemma purchase_sale_loop_acc (lines : list text) (filename : text)
      (acc : list Transaction) :
  purchase_sale_loop lines filename acc =
  acc ++ purchase_sale_loop lines filename [].
Proof.
  revert acc. induction lines as [|l lines IH]; intros acc;
    cbn [purchase_sale_loop].
  - now rewrite app_nil_r.
  - destruct (negb (nonempty (strip l))); [apply IH|].
    destruct (contains_any next_sections (strip l)); [now rewrite app_nil_r|].
    rewrite IH. rewrite (IH (emit _ [])).
    destruct (summary_step (strip l) filename); simpl; [|reflexivity].
    now rewrite <- app_assoc.
Qed.

Section Lines.
Variable filename : text.

Local Abbreviation text_produces := (text_produces filename).
Local Abbreviation summary_produces := (summary_produces filename).

Lemma text_loop_good (ls : list text) (rs : list Transaction)
      (rest : list text) :
  Forall2 text_produces ls rs ->
  text_loop (ls ++ rest) filename [] = rs ++ text_loop rest filename [].
Proof.
  induction 1 as [|l r ls rs [Hl Hr] _ IH]; [reflexivity|].
  unfold parse_text_transactions in Hr.
  rewrite (split_one_line newline l Hl) in Hr. simpl in Hr.
  simpl. rewrite text_loop_acc, Hr, IH. reflexivity.
Qed.

Lemma text_loop_bad (bad : text) (rest : list text) :
  re_match 12 text_pattern (strip bad) = None ->
  text_loop (bad :: rest) filename [] = text_loop rest filename [].
Proof.
  intros H. simpl. unfold text_step. rewrite H.
  now destruct (negb _).
Qed.

Lemma summary_loop_good (ls : list text) (rs : list Transaction)
      (rest : list text) :
  Forall2 summary_produces ls rs ->
  purchase_sale_loop (ls ++ rest) filename [] =
  rs ++ purchase_sale_loop rest filename [].
Proof.
  induction 1 as [|l r ls rs [Hl Hr] _ IH]; [reflexivity|].
  unfold parse_purchase_and_sale_summary_text in Hr.
  rewrite (split_one_line newline l Hl) in Hr.
  cbn [purchase_sale_loop] in Hr. cbn [purchase_sale_loop app].
  destruct (negb (nonempty (strip l))); [discriminate|].
  destruct (contains_any next_sections (strip l)); [discriminate|].
  rewrite purchase_sale_loop_acc, Hr, IH. reflexivity.
Qed.

Lemma summary_loop_bad (bad : text) (rest : list text) :
  contains_any next_sections (strip bad) = false ->
  re_match 11 summary_pattern (strip bad) = None ->
  purchase_sale_loop (bad :: rest) filename [] =
  purchase_sale_loop rest filename [].
Proof.
  intros Hs H. cbn [purchase_sale_loop]. rewrite Hs.
  unfold summary_step. rewrite H.
  now destruct (negb _).
Qed.

Lemma produces_one_line {P : text -> Transaction -> Prop}
      (ls : list text) (rs : list Transaction) :
  (forall l r, P l r -> one_line l) ->
  Forall2 P ls rs -> Forall (fun l => ~ In newline l) ls.
Proof.
  intros HP. induction 1 as [|l r ls rs H _ IH]; constructor;
    [exact (HP l r H) | exact IH].
Qed.

(** C8, as amended.  Take lines that each, read alone, produce a record:
    [before], one more, and [after].  With the line in the middle replaced
    by a line [bad] that does not match the pattern, the parser yields the
    records of the other lines, in their order: one fewer.  For
    [parse_text_transactions] this holds of every such [bad]; for
    [parse_purchase_and_sale_summary_text] it holds when [bad] names none
    of the following sections, at which that parser stops reading. *)
Theorem malformed_line_is_skipped
        (before after : list text) (rs_before rs_after : list Transaction)
        (bad : text) :
  one_line bad ->
  (Forall2 text_produces before rs_before ->
   Forall2 text_produces after rs_after ->
   re_match 12 text_pattern (strip bad) = None ->
   parse_text_transactions (join [newline] (before ++ bad :: after)) filename
   = rs_before ++ rs_after) /\
  (Forall2 summary_produces before rs_before ->
   Forall2 summary_produces after rs_after ->
   re_match 11 summary_pattern (strip bad) = None ->
   contains_any next_sections (strip bad) = false ->
   parse_purchase_and_sale_summary_text
     (join [newline] (before ++ bad :: after)) filename
   = rs_before ++ rs_after).
Proof.
  intros Hbad. split.
  - intros Hb Ha Hm. unfold parse_text_transactions.
    rewrite split_join.
    + rewrite (text_loop_good before rs_before _ Hb).
      rewrite (text_loop_bad bad after Hm).
      rewrite <- (app_nil_r after).
      rewrite (text_loop_good after rs_after [] Ha).
      now rewrite app_nil_r.
    + now destruct before.
    + apply Forall_app. split; [|constructor; [exact Hbad|]];
        eapply produces_one_line; try eassumption; now intros l r [H _].
  - intros Hb Ha Hm Hs. unfold parse_purchase_and_sale_summary_text.
    rewrite split_join.
    + rewrite (summary_loop_good before rs_before _ Hb).
      rewrite (summary_loop_bad bad after Hs Hm).
      rewrite <- (app_nil_r after).
      rewrite (summary_loop_good after rs_after [] Ha).
      now rewrite app_nil_r.
    + now destruct before.
    + apply Forall_app. split; [|constructor; [exact Hbad|]];
        eapply produces_one_line; try eassumption; now intros l r [H _].
Qed.

(** With every line in place the records are those of all the lines. *)
Lemma good_lines_all_parsed (ls : list text) (rs : list Transaction) :
  (Forall2 text_produces ls rs ->
   parse_text_transactions (join [newline] ls) filename = rs) /\
  (Forall2 summary_produces ls rs ->
   parse_purchase_and_sale_summary_text (join [newline] ls) filename = rs).
Proof.
  split; intros H.
  - destruct ls as [|l ls]; [inversion H; reflexivity|].
    unfold parse_text_transactions. rewrite split_join.
    + rewrite <- (app_nil_r (l :: ls)).
      rewrite (text_loop_good _ rs [] H). apply app_nil_r.
    + discriminate.
    + eapply produces_one_line; try eassumption; now intros ? ? [? _].
  - destruct ls as [|l ls]; [inversion H; reflexivity|].
    unfold parse_purchase_and_sale_summary_text. rewrite split_join.
    + rewrite <- (app_nil_r (l :: ls)).
      rewrite (summary_loop_good _ rs [] H). apply app_nil_r.
    + discriminate.
    + eapply produces_one_line; try eassumption; now intros ? ? [? _].
Qed.
End Lines.

Lemma one_line_check (l : text) :
  forallb (fun c => negb (Ascii.eqb c newline)) l = true -> one_line l.
Proof.
  intros H Hin. rewrite forallb_forall in H. specialize (H _ Hin).
  now rewrite Ascii.eqb_refl in H.
Qed.

Lemma scenario_line_parsed (filename : text) :
  parse_purchase_and_sale_summary_text scenario_line filename =
  [scenario_transaction filename].
Proof. vm_compute. reflexivity. Qed.

Lemma scenario_line_produces (filename : text) :
  summary_produces filename scenario_line (scenario_transaction filename).
Proof.
  split; [apply one_line_check; reflexivity | apply scenario_line_parsed].
Qed.

(** C8 as stated fails for [parse_purchase_and_sale_summary_text]: of three
    lines that each produce a record, replace the second by the line
    [Open Positions], which does not match the pattern; one record comes
    out, not two. *)
Lemma section_line_ends_batch :
  let f := sample_filename in
  let r := scenario_transaction f in
  let bad := txt "Open Positions" in
  Forall2 (summary_produces f) [scenario_line] [r] /\
  one_line bad /\
  re_match 11 summary_pattern (strip bad) = None /\
  parse_purchase_and_sale_summary_text
    (join [newline] ([scenario_line] ++ bad :: [scenario_line])) f = [r] /\
  [r] <> [r] ++ [r].
Proof.
  intros f r bad. split; [|split; [|split; [|split]]].
  - constructor; [apply scenario_line_produces | constructor].
  - apply one_line_check. reflexivity.
  - reflexivity.
  - vm_compute. reflexivity.
  - discriminate.
Qed.

(** A page footer between two good lines is skipped. *)
Lemma malformed_line_is_skipped_witness :
  let f := sample_filename in
  let r := scenario_transaction f in
  let bad := txt "page 3 of 7" in
  parse_purchase_and_sale_summary_text
    (join [newline] ([scenario_line] ++ bad :: [scenario_line])) f
  = [r] ++ [r].
Proof.
  intros f r bad.
  apply (proj2 (malformed_line_is_skipped f [scenario_line] [scenario_line]
                  [r] [r] bad
                  (one_line_check bad eq_refl))).
  - constructor; [apply scenario_line_produces | constructor].
  - constructor; [apply scenario_line_produces | constructor].
  - reflexivity.
  - reflexivity.
Defined.

(** ** Dates *)

Arguments consumed : simpl never.
Arguments set_cap : simpl never.

Lemma consumed_app (a r : text) : consumed (a ++ r) r = a.
Proof.
  unfold consumed. rewrite length_app.
  replace (List.length a + List.length r - List.length r) with (List.length a)
    by lia.
  apply firstn_exact.
Qed.

Lemma consumed_1 (a : ascii) (r : text) : consumed (a :: r) r = [a].
Proof. exact (consumed_app [a] r). Qed.

Lemma consumed_2 (a b : ascii) (r : text) : consumed (a :: b :: r) r = [a; b].
Proof. exact (consumed_app [a; b] r). Qed.

Lemma consumed_4 (a b c d : ascii) (r : text) :
  consumed (a :: b :: c :: d :: r) r = [a; b; c; d].
Proof. exact (consumed_app [a; b; c; d] r). Qed.

(** Case analysis on the 256 characters. *)
Ltac enum c :=
  let b0 := fresh in let b1 := fresh in let b2 := fresh in let b3 := fresh in
  let b4 := fresh in let b5 := fresh in let b6 := fresh in let b7 := fresh in
  destruct c as [b0 b1 b2 b3 b4 b5 b6 b7];
  destruct b0, b1, b2, b3, b4, b5, b6, b7.

(** Case analysis on an integer between bounds below 64. *)
Ltac enum_z m :=
  destruct m as [|m|m]; try lia;
  do 5 (try (destruct m as [m|m|]; try lia)).

(** Close a branch of the matcher: [H] says which continuation call gave
    the result; [P] proves the text consumed is a month or a day. *)
Ltac leaf P H :=
  lazymatch type of H with
  | None = Some _ => discriminate H
  | match ?X with Some _ => _ | None => _ end = Some _ =>
      let E := fresh "E" in
      destruct X eqn:E; [injection H as H; subst; leaf P E | leaf P H]
  | _ ?r (set_cap _ ?ms _) = Some _ =>
      let m := eval vm_compute in (digits_val (filter isdigit ms)) in
      exists m, ms, r; split; [reflexivity | split; [P | exact H]]
  end.

Ltac month_ok :=
  first [ left; split; [lia | reflexivity] | right; split; [lia | reflexivity] ].

Ltac day_ok :=
  first [ left; split; [lia | reflexivity]
        | right; left; split; [lia | reflexivity]
        | right; right; split; [lia | reflexivity] ].

Section DateParts.
Variable R : Type.
Variable w : text.
Variable k : text -> captures -> option R.

Lemma rx_chr (c : ascii) (s : text) (caps : captures) :
  rx w (Chr c) s caps k =
  match s with
  | x :: t => if Ascii.eqb x c then k t caps else None
  | [] => None
  end.
Proof. reflexivity. Qed.

(** [%Y] takes four digits. *)
Lemma rx_year (s : text) (caps : captures) :
  rx w (Grp 0 re_Y) s caps k =
  match s with
  | y1 :: y2 :: y3 :: y4 :: r =>
      if isdigit y1 && isdigit y2 && isdigit y3 && isdigit y4
      then k r (set_cap 0 [y1; y2; y3; y4] caps) else None
  | _ => None
  end.
Proof.
  destruct s as [|y1 [|y2 [|y3 [|y4 r]]]];
    cbn [rx re_Y times seqs repeat fold_right];
    try reflexivity;
    repeat match goal with |- context [isdigit ?c] => destruct (isdigit c) end;
    try reflexivity.
  cbn. now rewrite consumed_4.
Qed.

(** Whatever [%m] takes is a month text. *)
Lemma rx_month_complete (s : text) (caps : captures) (res : R) :
  rx w (Grp 1 re_m) s caps k = Some res ->
  exists m ms r, s = ms ++ r /\ month_text m ms /\
                 k r (set_cap 1 ms caps) = Some res.
Proof.
  intros H. destruct s as [|c1 r1]; [discriminate H|].
  enum c1; cbn in H; try discriminate H;
    rewrite ?consumed_1 in H;
    try (leaf month_ok H; fail).
  all: destruct r1 as [|c2 r2]; cbn in H; rewrite ?consumed_1 in H;
    try (leaf month_ok H; fail).
  all: enum c2; cbn in H; rewrite ?consumed_1, ?consumed_2 in H;
    leaf month_ok H.
Qed.

(** Whatever [%d] takes is a day text. *)
Lemma rx_day_complete (s : text) (caps : captures) (res : R) :
  rx w (Grp 2 re_d) s caps k = Some res ->
  exists d ds r, s = ds ++ r /\ day_text d ds /\
                 k r (set_cap 2 ds caps) = Some res.
Proof.
  intros H. destruct s as [|c1 r1]; [discriminate H|].
  enum c1; cbn in H; try discriminate H;
    rewrite ?consumed_1 in H;
    try (leaf day_ok H; fail).
  all: destruct r1 as [|c2 r2]; cbn in H; rewrite ?consumed_1 in H;
    try (leaf day_ok H; fail).
  all: enum c2; cbn in H; rewrite ?consumed_1, ?consumed_2 in H;
    leaf day_ok H.
Qed.

(** A month text before a hyphen is what [%m] takes. *)
Lemma rx_month_sound (m : Z) (ms r : text) (caps : captures) (res : R) :
  month_text m ms ->
  k ("-"%char :: r) (set_cap 1 ms caps) = Some res ->
  rx w (Grp 1 re_m) (ms ++ "-"%char :: r) caps k = Some res.
Proof.
  intros [[Hm ->] | [Hm ->]] H; enum_z m;
    cbn in H |- *; rewrite ?consumed_1, ?consumed_2; rewrite H; reflexivity.
Qed.

(** A day text at the end is what [%d] takes. *)
Lemma rx_day_sound (d : Z) (ds : text) (caps : captures) (res : R) :
  day_text d ds ->
  k [] (set_cap 2 ds caps) = Some res ->
  rx w (Grp 2 re_d) ds caps k = Some res.
Proof.
  intros [[Hd ->] | [[Hd ->] | [Hd ->]]] H; enum_z d;
    cbn in H |- *; rewrite ?consumed_1, ?consumed_2; rewrite H; reflexivity.
Qed.
End DateParts.

Lemma digit_cases (c : ascii) :
  isdigit c = true -> In c (txt "0123456789").
Proof.
  intros H. enum c; try (vm_compute in H; discriminate H); simpl; tauto.
Qed.

Lemma digit_facts (c : ascii) :
  isdigit c = true ->
  c_isspace c = false /\ Ascii.eqb c "-" = false /\ Ascii.eqb c "+" = false /\
  (0 <= digit_val c <= 9)%Z /\ digit_chr (digit_val c) = c.
Proof.
  intros H. apply digit_cases in H. simpl in H.
  repeat (destruct H as [<- | H]; [vm_compute; intuition discriminate|]).
  contradiction.
Qed.

Lemma chr_digit (k : Z) :
  (0 <= k <= 9)%Z -> isdigit (digit_chr k) = true /\ digit_val (digit_chr k) = k.
Proof. intros H. enum_z k; split; reflexivity. Qed.

Lemma month_int (m : Z) (ms : text) : month_text m ms -> py_int ms = Returns m.
Proof. intros [[H ->] | [H ->]]; enum_z m; reflexivity. Qed.

Lemma day_int (d : Z) (ds : text) : day_text d ds -> py_int ds = Returns d.
Proof. intros [[H ->] | [[H ->] | [H ->]]]; enum_z d; reflexivity. Qed.

Lemma div10 (a v : Z) :
  (0 <= v <= 9)%Z -> ((10 * a + v) / 10 = a /\ (10 * a + v) mod 10 = v)%Z.
Proof.
  intros H. split.
  - symmetry. apply (Z.div_unique _ 10 a v); lia.
  - symmetry. apply (Z.mod_unique _ 10 a v); lia.
Qed.

(** In a text of digits every character counts toward the limit. *)
Lemma digit_count_digits (g : text) :
  Forall (fun c => isdigit c = true) g -> digit_count g = List.length g.
Proof.
  unfold digit_count. induction 1 as [|c g Hc _ IH]; [reflexivity|].
  cbn [filter]. rewrite Hc. cbn [List.length]. now rewrite IH.
Qed.

(** Four digits are the decimal writing of their value. *)
Lemma year_digits (y1 y2 y3 y4 : ascii) :
  isdigit y1 = true -> isdigit y2 = true -> isdigit y3 = true ->
  isdigit y4 = true ->
  let y := digits_val [y1; y2; y3; y4] in
  py_int [y1; y2; y3; y4] = Returns y /\
  pad_dec 4 y = [y1; y2; y3; y4] /\ (0 <= y <= 9999)%Z.
Proof.
  intros H1 H2 H3 H4 y.
  destruct (digit_facts y1 H1) as (S1 & M1 & P1 & R1 & C1).
  destruct (digit_facts y2 H2) as (S2 & M2 & P2 & R2 & C2).
  destruct (digit_facts y3 H3) as (S3 & M3 & P3 & R3 & C3).
  destruct (digit_facts y4 H4) as (S4 & M4 & P4 & R4 & C4).
  assert (Ey : y = (10 * (10 * (10 * digit_val y1 + digit_val y2) + digit_val y3)
                    + digit_val y4)%Z).
  { subst y. unfold digits_val. cbn [fold_left]. lia. }
  split; [|split].
  - unfold py_int, c_strip. cbn [c_lstrip]. rewrite S1. cbn [rev app c_lstrip].
    rewrite S4. cbn [rev app]. unfold split_sign. rewrite M1, P1.
    unfold digit_string. rewrite H1. cbn [scan_digits]. rewrite H2, H3, H4.
    rewrite (digit_count_digits [y1; y2; y3; y4])
      by (repeat constructor; assumption).
    rewrite Ey. reflexivity.
  - rewrite Ey. cbn [pad_dec app].
    destruct (div10 (10 * (10 * digit_val y1 + digit_val y2) + digit_val y3)
                    (digit_val y4) R4) as [-> ->].
    destruct (div10 (10 * digit_val y1 + digit_val y2) (digit_val y3) R3) as [-> ->].
    destruct (div10 (digit_val y1) (digit_val y2) R2) as [-> ->].
    rewrite (Z.mod_small (digit_val y1) 10) by lia.
    now rewrite C1, C2, C3, C4.
  - lia.
Qed.

(** The decimal writing of a year is four digits of that value. *)
Lemma pad_year (y : Z) :
  (0 <= y <= 9999)%Z ->
  exists y1 y2 y3 y4,
    pad_dec 4 y = [y1; y2; y3; y4] /\
    isdigit y1 = true /\ isdigit y2 = true /\ isdigit y3 = true /\
    isdigit y4 = true /\ digits_val [y1; y2; y3; y4] = y.
Proof.
  intros H.
  exists (digit_chr (y / 10 / 10 / 10 mod 10)), (digit_chr (y / 10 / 10 mod 10)),
         (digit_chr (y / 10 mod 10)), (digit_chr (y mod 10)).
  assert (B : forall z, (0 <= z mod 10 <= 9)%Z)
    by (intros z; pose proof (Z.mod_pos_bound z 10); lia).
  destruct (chr_digit _ (B (y / 10 / 10 / 10)%Z)) as [D1 V1].
  destruct (chr_digit _ (B (y / 10 / 10)%Z)) as [D2 V2].
  destruct (chr_digit _ (B (y / 10)%Z)) as [D3 V3].
  destruct (chr_digit _ (B y)) as [D4 V4].
  repeat split; try assumption.
  unfold digits_val. cbn [fold_left]. rewrite V1, V2, V3, V4.
  pose proof (Z.div_mod y 10). pose proof (Z.div_mod (y / 10) 10).
  pose proof (Z.div_mod (y / 10 / 10) 10).
  pose proof (Z.div_mod (y / 10 / 10 / 10) 10).
  assert (y / 10 / 10 / 10 / 10 = 0)%Z.
  { rewrite !Z.div_div by lia. apply Z.div_small. lia. }
  lia.
Qed.

Lemma re_Ymd_chain (s : text) :
  re_match 3 re_Ymd s =
  rx s (Grp 0 re_Y) s [None; None; None]
     (fun s1 c1 => rx s (Chr "-") s1 c1
     (fun s2 c2 => rx s (Grp 1 re_m) s2 c2
     (fun s3 c3 => rx s (Chr "-") s3 c3
     (fun s4 c4 => rx s (Grp 2 re_d) s4 c4
     (fun s5 c5 => Some (c5, s5)))))).
Proof. reflexivity. Qed.

Lemma re_Ymd_complete (s : text) (found : captures) :
  re_match 3 re_Ymd s = Some (found, []) ->
  exists y1 y2 y3 y4 m ms d ds,
    isdigit y1 = true /\ isdigit y2 = true /\ isdigit y3 = true /\
    isdigit y4 = true /\ month_text m ms /\ day_text d ds /\
    s = [y1; y2; y3; y4] ++ txt "-" ++ ms ++ txt "-" ++ ds /\
    found = [Some [y1; y2; y3; y4]; Some ms; Some ds].
Proof.
  rewrite re_Ymd_chain, rx_year. intros H.
  destruct s as [|y1 [|y2 [|y3 [|y4 r]]]]; try discriminate H.
  destruct (isdigit y1) eqn:D1; [|discriminate H].
  destruct (isdigit y2) eqn:D2; [|discriminate H].
  destruct (isdigit y3) eqn:D3; [|discriminate H].
  destruct (isdigit y4) eqn:D4; [|discriminate H].
  cbn [andb] in H. rewrite rx_chr in H.
  destruct r as [|h1 r]; [discriminate H|].
  destruct (Ascii.eqb_spec h1 "-") as [->|_]; [|discriminate H].
  apply rx_month_complete in H. destruct H as (m & ms & r' & -> & Hm & H).
  rewrite rx_chr in H.
  destruct r' as [|h2 r']; [discriminate H|].
  destruct (Ascii.eqb_spec h2 "-") as [->|_]; [|discriminate H].
  apply rx_day_complete in H. destruct H as (d & ds & r'' & -> & Hd & H).
  injection H as <- ->.
  exists y1, y2, y3, y4, m, ms, d, ds. rewrite app_nil_r.
  repeat split; try assumption.
Qed.

Lemma re_Ymd_sound (y1 y2 y3 y4 : ascii) (m : Z) (ms : text) (d : Z) (ds : text) :
  isdigit y1 = true -> isdigit y2 = true -> isdigit y3 = true ->
  isdigit y4 = true -> month_text m ms -> day_text d ds ->
  re_match 3 re_Ymd ([y1; y2; y3; y4] ++ txt "-" ++ ms ++ txt "-" ++ ds) =
  Some ([Some [y1; y2; y3; y4]; Some ms; Some ds], []).
Proof.
  intros D1 D2 D3 D4 Hm Hd.
  rewrite re_Ymd_chain, rx_year. cbn [app txt list_ascii_of_string].
  rewrite D1, D2, D3, D4. cbn [andb]. rewrite rx_chr, Ascii.eqb_refl.
  apply (rx_month_sound _ _ _ m); [exact Hm|].
  rewrite rx_chr, Ascii.eqb_refl.
  apply (rx_day_sound _ _ _ d); [exact Hd|]. reflexivity.
Qed.

Lemma make_date_spec (y m d : Z) (dt : datetime) :
  make_date y m d = Returns dt <->
  valid_date y m d = true /\ dt = mkDate y m d.
Proof.
  unfold make_date, valid_date.
  destruct (1 <=? y)%Z, (y <=? 9999)%Z, (1 <=? m)%Z, (m <=? 12)%Z,
    (1 <=? d)%Z, (d <=? days_in_month y m)%Z; cbn;
    split; intros H; try discriminate H; try (destruct H; discriminate).
  - injection H as <-. now split.
  - destruct H as [_ ->]. reflexivity.
Qed.

(** [strptime] with the format [%Y-%m-%d]: what it accepts and returns. *)
Lemma strptime_spec (s : text) (dt : datetime) :
  strptime_Ymd s = Returns dt <->
  exists y m d,
    accepted_form s y m d /\ valid_date y m d = true /\ dt = mkDate y m d.
Proof.
  unfold strptime_Ymd. split.
  - destruct (re_match 3 re_Ymd s) as [[found rest]|] eqn:E; [|discriminate].
    destruct rest as [|c rest]; [|discriminate].
    apply re_Ymd_complete in E.
    destruct E as (y1 & y2 & y3 & y4 & m & ms & d & ds
                   & D1 & D2 & D3 & D4 & Hm & Hd & -> & ->).
    destruct (year_digits y1 y2 y3 y4 D1 D2 D3 D4) as (Hy & Hp & Hr).
    unfold group. cbn [nth_error]. rewrite Hy, (month_int m ms Hm), (day_int d ds Hd).
    cbn [bind]. intros H. apply make_date_spec in H. destruct H as [Hv ->].
    exists (digits_val [y1; y2; y3; y4]), m, d. repeat split; try assumption;
      try lia.
    exists ms, ds. rewrite Hp. repeat split; assumption.
  - intros (y & m & d & (Hy & ms & ds & Hm & Hd & ->) & Hv & ->).
    destruct (pad_year y Hy) as (y1 & y2 & y3 & y4 & -> & D1 & D2 & D3 & D4 & Ey).
    rewrite (re_Ymd_sound y1 y2 y3 y4 m ms d ds D1 D2 D3 D4 Hm Hd).
    destruct (year_digits y1 y2 y3 y4 D1 D2 D3 D4) as (Hi & _ & _).
    unfold group. cbn [nth_error]. rewrite Hi, (month_int m ms Hm), (day_int d ds Hd).
    cbn [bind]. rewrite Ey. apply make_date_spec. now split.
Qed.

Lemma parse_date_returns (v : option text) : exists r, parse_date v = Returns r.
Proof.
  destruct v as [[|c s]|]; simpl; eauto.
  destruct (strptime_Ymd _); simpl; eauto.
Qed.

Lemma parse_date_some (s t : text) :
  parse_date (Some s) = Returns (Some t) <->
  s <> [] /\
  exists y m d,
    accepted_form (date_argument s) y m d /\ valid_date y m d = true /\
    t = isoformat (mkDate y m d).
Proof.
  destruct s as [|c s].
  - simpl. split; [discriminate | intros [H _]; congruence].
  - unfold parse_date. fold (date_argument (c :: s)).
    destruct (strptime_Ymd (date_argument (c :: s))) as [dt|e] eqn:E; simpl.
    + apply strptime_spec in E. destruct E as (y & m & d & Ha & Hv & ->).
      split.
      * intros H. injection H as <-. split; [discriminate|].
        now exists y, m, d.
      * intros (_ & y' & m' & d' & Ha' & Hv' & ->).
        assert (E' : strptime_Ymd (date_argument (c :: s)) = Returns (mkDate y' m' d'))
          by (apply strptime_spec; now exists y', m', d').
        assert (E'' : strptime_Ymd (date_argument (c :: s)) = Returns (mkDate y m d))
          by (apply strptime_spec; now exists y, m, d).
        rewrite E' in E''. injection E'' as -> -> ->. reflexivity.
    + split; [discriminate|].
      intros (_ & y & m & d & Ha & Hv & _).
      assert (E' : strptime_Ymd (date_argument (c :: s)) = Returns (mkDate y m d))
        by (apply strptime_spec; now exists y, m, d).
      rewrite E' in E. discriminate.
Qed.

Lemma two_digits (c1 c2 : ascii) :
  isdigit c1 = true -> isdigit c2 = true ->
  pad_dec 2 (digits_val [c1; c2]) = [c1; c2].
Proof.
  intros H1 H2.
  destruct (digit_facts c1 H1) as (_ & _ & _ & R1 & C1).
  destruct (digit_facts c2 H2) as (_ & _ & _ & R2 & C2).
  unfold digits_val. cbn [fold_left pad_dec app].
  replace (10 * (10 * 0 + digit_val c1) + digit_val c2)%Z
    with (10 * digit_val c1 + digit_val c2)%Z by lia.
  destruct (div10 (digit_val c1) (digit_val c2) R2) as [-> ->].
  rewrite (Z.mod_small (digit_val c1) 10) by lia.
  now rewrite C1, C2.
Qed.

Lemma strict_ymd_inv (a : text) :
  strict_ymd a = true ->
  exists y1 y2 y3 y4 m1 m2 d1 d2,
    a = [y1; y2; y3; y4; "-"%char; m1; m2; "-"%char; d1; d2] /\
    isdigit y1 = true /\ isdigit y2 = true /\ isdigit y3 = true /\
    isdigit y4 = true /\ isdigit m1 = true /\ isdigit m2 = true /\
    isdigit d1 = true /\ isdigit d2 = true.
Proof.
  intros H.
  do 10 (destruct a as [|? a]; [discriminate H|]).
  destruct a; [|discriminate H].
  cbn [strict_ymd] in H. rewrite !andb_true_iff in H.
  destruct H as [[[[[[[[[? ?] ?] ?] H5] ?] ?] H8] ?] ?].
  apply Ascii.eqb_eq in H5, H8. subst.
  do 8 eexists. repeat split; eassumption.
Qed.

Lemma length_pad_dec (n : nat) (z : Z) : List.length (pad_dec n z) = n.
Proof.
  revert z. induction n as [|n IH]; intros z; [reflexivity|].
  cbn [pad_dec]. rewrite length_app, IH. simpl. lia.
Qed.

(** A strict text is read in one way only: as its own digits. *)
Lemma accepted_strict (a : text) (y m d : Z) :
  strict_ymd a = true -> accepted_form a y m d -> strict_fields a = (y, m, d).
Proof.
  intros Hs (Hy & ms & ds & Hm & Hd & ->).
  destruct (pad_year y Hy) as (y1 & y2 & y3 & y4 & Ep & D1 & D2 & D3 & D4 & Ey).
  rewrite Ep in *. unfold strict_fields.
  destruct Hm as [[Hm ->] | [Hm ->]]; destruct Hd as [[Hd ->] | [[Hd ->] | [Hd ->]]];
    cbn [app txt list_ascii_of_string pad_dec] in Hs |- *;
    try discriminate Hs.
  - cbn [firstn skipn]. rewrite Ey. f_equal; [f_equal|].
    + clear Hs. enum_z m; reflexivity.
    + clear Hs. enum_z d; reflexivity.
  - exfalso. cbn [strict_ymd] in Hs. rewrite !andb_true_iff in Hs.
    destruct Hs as [[_ Hb] _]. discriminate Hb.
Qed.

Lemma iso_strict (y1 y2 y3 y4 m1 m2 d1 d2 : ascii) :
  isdigit y1 = true -> isdigit y2 = true -> isdigit y3 = true ->
  isdigit y4 = true -> isdigit m1 = true -> isdigit m2 = true ->
  isdigit d1 = true -> isdigit d2 = true ->
  let a := [y1; y2; y3; y4; "-"%char; m1; m2; "-"%char; d1; d2] in
  let '(y, m, d) := strict_fields a in
  isoformat (mkDate y m d) = a ++ txt "T00:00:00" /\
  (valid_date y m d = true -> accepted_form a y m d).
Proof.
  intros D1 D2 D3 D4 M1 M2 E1 E2 a. unfold strict_fields. subst a.
  cbn [firstn skipn].
  destruct (year_digits y1 y2 y3 y4 D1 D2 D3 D4) as (_ & Hp & Hr).
  pose proof (two_digits m1 m2 M1 M2) as Hm.
  pose proof (two_digits d1 d2 E1 E2) as Hd.
  split.
  - unfold isoformat. cbn [year month day]. rewrite Hp, Hm, Hd. reflexivity.
  - intros Hv. unfold valid_date in Hv. rewrite !andb_true_iff in Hv.
    destruct Hv as [[[[[? ?] ?] ?] ?] ?].
    split; [exact Hr|].
    exists [m1; m2], [d1; d2]. split; [|split].
    + left. split; [lia | now rewrite Hm].
    + left. split; [|now rewrite Hd].
      assert (days_in_month (digits_val [y1; y2; y3; y4]) (digits_val [m1; m2]) <= 31)%Z.
      { unfold days_in_month.
        repeat match goal with |- context [if ?b then _ else _] => destruct b end; lia. }
      lia.
    + rewrite Hp. reflexivity.
Qed.

Lemma parse_date_strict (s : text) :
  strict_ymd (date_argument s) = true ->
  let '(y, m, d) := strict_fields (date_argument s) in
  parse_date (Some s) =
  Returns (if valid_date y m d
           then Some (date_argument s ++ txt "T00:00:00") else None).
Proof.
  intros Hs.
  destruct (strict_ymd_inv _ Hs)
    as (y1 & y2 & y3 & y4 & m1 & m2 & d1 & d2 & Ea & D1 & D2 & D3 & D4 & M1 & M2 & E1 & E2).
  pose proof (iso_strict y1 y2 y3 y4 m1 m2 d1 d2 D1 D2 D3 D4 M1 M2 E1 E2) as Hi.
  cbv zeta in Hi. rewrite <- Ea in Hi.
  destruct (strict_fields (date_argument s)) as [[y m] d] eqn:Ef.
  destruct Hi as [Hiso Hacc].
  destruct (valid_date y m d) eqn:Hv.
  - apply parse_date_some. split.
    + intros ->. discriminate Hs.
    + exists y, m, d. split; [now apply Hacc|]. split; [exact Hv | now rewrite Hiso].
  - destruct (parse_date_returns (Some s)) as [[t|] E]; [|exact E].
    exfalso. apply parse_date_some in E.
    destruct E as (_ & y' & m' & d' & Ha & Hv' & _).
    pose proof (accepted_strict _ _ _ _ Hs Ha) as Ef'.
    rewrite Ef in Ef'. injection Ef' as <- <- <-. congruence.
Qed.

(** C5, as amended.  [parse_date] never raises.  It returns a timestamp
    exactly when its argument is not empty and, stripped and with each
    newline made a hyphen, is a year of four digits, a hyphen, a month from 1
    to 12 in two digits or (below ten) in one, a hyphen, and a day from 1 to
    31 in two digits or (below ten) in one digit or a blank and a digit,
    naming a day of the calendar from year 1 on; the timestamp is that day
    at midnight in ISO-8601 form.  Every other string gives [None].  So a
    string of the strict form [YYYY-MM-DD] gives itself followed by
    [T00:00:00] when it names a day of the calendar, and [None] when it
    does not. *)
Theorem parse_date_spec (s : text) :
  (forall v, exists r, parse_date v = Returns r) /\
  (forall t,
      parse_date (Some s) = Returns (Some t) <->
      s <> [] /\
      exists y m d,
        accepted_form (date_argument s) y m d /\ valid_date y m d = true /\
        t = isoformat (mkDate y m d)) /\
  (strict_ymd (date_argument s) = true ->
   let '(y, m, d) := strict_fields (date_argument s) in
   parse_date (Some s) =
   Returns (if valid_date y m d
            then Some (date_argument s ++ txt "T00:00:00") else None)).
Proof.
  split; [exact parse_date_returns|].
  split; [intros t; apply parse_date_some | apply parse_date_strict].
Qed.

(** C5 as stated fails: [2025-9-1] is not of the strict form, and
    [parse_date] returns a timestamp for it. *)
Lemma parse_date_accepts_short_fields :
  strict_ymd (date_argument (txt "2025-9-1")) = false /\
  parse_date (Some (txt "2025-9-1")) =
  Returns (Some (txt "2025-09-01T00:00:00")).
Proof. split; reflexivity. Qed.

(** A strict text that names no day of the calendar gives [None]. *)
Example parse_date_february_30 :
  strict_ymd (date_argument (txt "2025-02-30")) = true /\
  parse_date (Some (txt "2025-02-30")) = Returns None.
Proof. split; reflexivity. Qed.

(** A date wrapped over three lines is of the strict form once stripped and
    rejoined. *)
Lemma parse_date_spec_witness :
  strict_ymd (date_argument wrapped_date) = true /\
  parse_date (Some wrapped_date) = Returns (Some (txt "2025-09-01T00:00:00")).
Proof.
  split; [reflexivity|].
  exact (proj2 (proj2 (parse_date_spec wrapped_date)) eq_refl).
Defined.

(** ** Cleaning a cell *)

Lemma lstrip_head (s : text) (c : ascii) (r : text) :
  lstrip s = c :: r -> isspace c = false.
Proof.
  induction s as [|x s IH]; simpl; [discriminate|].
  destruct (isspace x) eqn:E; [exact IH|].
  intros H. injection H as <- _. exact E.
Qed.

Lemma lstrip_fixed (c : ascii) (r : text) :
  isspace c = false -> lstrip (c :: r) = c :: r.
Proof. intros H. simpl. now rewrite H. Qed.

Lemma lstrip_idem (s : text) : lstrip (lstrip s) = lstrip s.
Proof.
  destruct (lstrip s) as [|c r] eqn:E; [reflexivity|].
  apply lstrip_fixed. eapply lstrip_head; exact E.
Qed.

Lemma rstrip_idem (s : text) : rstrip (rstrip s) = rstrip s.
Proof. unfold rstrip. now rewrite rev_involutive, lstrip_idem. Qed.

(** Stripping twice is stripping once. *)
Lemma strip_idem (s : text) : strip (strip s) = strip s.
Proof.
  unfold strip. destruct (lstrip s) as [|c r] eqn:E; [reflexivity|].
  pose proof (lstrip_head s c r E) as Hc.
  destruct (rstrip_keeps [] c r Hc) as [r' Hr]. simpl app in Hr.
  rewrite Hr. rewrite (lstrip_fixed c r' Hc). rewrite <- Hr.
  apply rstrip_idem.
Qed.

Lemma replace_single (old new : ascii) (s : text) :
  replace old [new] s = map (fun c => if Ascii.eqb c old then new else c) s.
Proof.
  unfold replace. induction s as [|c s IH]; [reflexivity|].
  simpl. rewrite IH. now destruct (Ascii.eqb c old).
Qed.

Lemma replace_absent (old : ascii) (new : text) (s : text) :
  ~ In old s -> replace old new s = s.
Proof.
  unfold replace. induction s as [|c s IH]; intros H; [reflexivity|].
  simpl. destruct (Ascii.eqb_spec c old) as [->|_].
  - exfalso. apply H. now left.
  - rewrite IH; [reflexivity|]. intros Hin. apply H. now right.
Qed.

Lemma replace_newline_gone (new : ascii) (s : text) :
  new <> newline -> ~ In newline (replace newline [new] s).
Proof.
  intros Hn. rewrite replace_single. intros H. apply in_map_iff in H.
  destruct H as (c & Hc & _).
  destruct (Ascii.eqb_spec c newline); congruence.
Qed.

Lemma lstrip_strip (s : text) : lstrip (strip s) = strip s.
Proof.
  unfold strip. destruct (lstrip s) as [|c r] eqn:E; [reflexivity|].
  pose proof (lstrip_head s c r E) as Hc.
  destruct (rstrip_keeps [] c r Hc) as [r' Hr]. simpl app in Hr.
  rewrite Hr. now apply lstrip_fixed.
Qed.

Lemma lstrip_rev_strip (s : text) : lstrip (rev (strip s)) = rev (strip s).
Proof. unfold strip, rstrip. rewrite rev_involutive. apply lstrip_idem. Qed.

(** A text with no blank at either end is its own [strip]. *)
Lemma strip_fixed (t : text) :
  lstrip t = t -> lstrip (rev t) = rev t -> strip t = t.
Proof.
  intros H1 H2. unfold strip, rstrip. rewrite H1, H2. apply rev_involutive.
Qed.

(** Replacing newlines by blanks inside a stripped text leaves it stripped. *)
Lemma strip_replace_blank (s : text) :
  strip (replace newline (txt " ") (strip s)) = replace newline (txt " ") (strip s).
Proof.
  change (txt " ") with [" "%char]. rewrite replace_single.
  set (f := fun c => if Ascii.eqb c newline then " "%char else c).
  assert (L : forall t, lstrip t = t -> lstrip (map f t) = map f t).
  { intros [|c r] Ht; [reflexivity|].
    pose proof (lstrip_head _ _ _ Ht) as Hc.
    simpl map. apply lstrip_fixed. unfold f.
    destruct (Ascii.eqb_spec c newline) as [->|_]; [discriminate Hc | exact Hc]. }
  apply strip_fixed.
  - apply L, lstrip_strip.
  - rewrite <- map_rev. apply L, lstrip_rev_strip.
Qed.

Lemma text_eqb_eq (a b : text) : text_eqb a b = true <-> a = b.
Proof.
  revert b. induction a as [|x a IH]; intros [|y b]; simpl;
    try (split; [discriminate | discriminate]); [tauto|].
  rewrite andb_true_iff, Ascii.eqb_eq, IH. split.
  - intros [-> ->]. reflexivity.
  - intros H. injection H as -> ->. now split.
Qed.

Lemma text_eqb_false (a b : text) : text_eqb a b = false <-> a <> b.
Proof.
  destruct (text_eqb a b) eqn:E.
  - apply text_eqb_eq in E. split; [discriminate | congruence].
  - split; [|reflexivity]. intros _ H. apply text_eqb_eq in H. congruence.
Qed.

Lemma clean_value_some (value : option text) (v : text) :
  clean_value value = Some v ->
  v <> [] /\ v <> txt "None" /\ ~ In newline v /\ strip v = v.
Proof.
  destruct value as [s|]; [|discriminate]. unfold clean_value.
  set (u := replace newline (txt " ") (strip s)).
  destruct (text_eqb u []) eqn:E1; [discriminate|].
  destruct (text_eqb u (txt "None")) eqn:E2; [discriminate|].
  simpl. intros H. injection H as <-.
  apply text_eqb_false in E1, E2.
  repeat split; try assumption.
  - apply replace_newline_gone. discriminate.
  - apply strip_replace_blank.
Qed.

(** What [clean_value] returns: [None], or a text that is not empty, is not
    the word [None], holds no newline and has no blank at either end. *)
Theorem clean_value_shape (value : option text) (v : text) :
  clean_value value = Some v ->
  v <> [] /\ v <> txt "None" /\ ~ In newline v /\ strip v = v.
Proof. apply clean_value_some. Qed.

(** Cleaning a cleaned cell changes nothing. *)
Theorem clean_value_idempotent (value : option text) :
  clean_value (clean_value value) = clean_value value.
Proof.
  destruct (clean_value value) as [v|] eqn:E; [|reflexivity].
  destruct (clean_value_some value v E) as (H1 & H2 & H3 & H4).
  unfold clean_value. rewrite H4. rewrite (replace_absent _ _ _ H3).
  apply text_eqb_false in H1, H2. now rewrite H1, H2.
Qed.

(** ** Tags *)

Lemma league_found (p : text * list text -> bool) :
  match find p sports_keywords with
  | Some entry => In (fst entry) league_labels
  | None => True
  end.
Proof.
  destruct (find p sports_keywords) as [e|] eqn:E; [|exact I].
  apply find_some in E. destruct E as [E _]. now apply in_map.
Qed.

(** The tags are at most one league label of the table, then the stripped
    description when the description is not empty: never more than two. *)
Theorem extract_tags_structure (description symbol : text) :
  exists league,
    extract_tags description symbol =
    league ++ (if nonempty description then [strip description] else []) /\
    (league = [] \/ exists l, league = [l] /\ In l league_labels) /\
    List.length (extract_tags description symbol) <= 2.
Proof.
  unfold extract_tags.
  set (p := fun entry : text * list text => contains_any (snd entry) _).
  pose proof (league_found p) as H.
  destruct (find p sports_keywords) as [e|].
  - exists [fst e]. split; [reflexivity|]. split; [right; now exists (fst e)|].
    destruct (nonempty description); simpl; lia.
  - exists []. split; [reflexivity|]. split; [now left|].
    destruct (nonempty description); simpl; lia.
Qed.

Lemma upper_app (a b : text) : upper (a ++ b) = upper a ++ upper b.
Proof. apply map_app. Qed.

(** Only the letters of the symbol count, not their case. *)
Theorem extract_tags_symbol_case (description symbol symbol' : text) :
  upper symbol = upper symbol' ->
  extract_tags description symbol = extract_tags description symbol'.
Proof.
  intros H. unfold extract_tags. now rewrite !upper_app, H.
Qed.

Lemma startswith_before (sep : ascii) (p a b : text) :
  ~ In sep p -> p <> [] ->
  startswith p (a ++ sep :: b) = startswith p a.
Proof.
  revert a. induction p as [|y p IH]; intros a Hin Hne; [congruence|].
  destruct a as [|x a]; simpl.
  - destruct (Ascii.eqb_spec y sep) as [->|_]; [|reflexivity].
    exfalso. apply Hin. now left.
  - destruct (Ascii.eqb y x); [|reflexivity]. simpl.
    destruct p as [|z p]; [reflexivity|].
    apply IH; [|discriminate]. intros H. apply Hin. now right.
Qed.

(** A phrase without the separator lies on one side of it. *)
Lemma contains_either_side (sep : ascii) (sub a b : text) :
  ~ In sep sub -> sub <> [] ->
  contains sub (a ++ sep :: b) = contains sub a || contains sub b.
Proof.
  intros Hin Hne. induction a as [|x a IH].
  - pose proof (startswith_before sep sub [] b Hin Hne) as E.
    change ([] ++ sep :: b) with (sep :: b) in *. cbn [contains].
    rewrite E. destruct sub; [congruence | reflexivity].
  - pose proof (startswith_before sep sub (x :: a) b Hin Hne) as E.
    change ((x :: a) ++ sep :: b) with (x :: (a ++ sep :: b)) in *.
    cbn [contains]. rewrite IH, E. now rewrite orb_assoc.
Qed.

Lemma keyword_either_side (kws : list text) (d s : text) :
  In kws (map snd sports_keywords) ->
  contains_any kws (upper (d ++ txt " " ++ s)) =
  contains_any kws (upper d) || contains_any kws (upper s).
Proof.
  intros Hk. rewrite !upper_app. change (upper (txt " ")) with [" "%char].
  change ([" "%char] ++ upper s) with (" "%char :: upper s).
  assert (K : Forall (fun kw => ~ In " "%char kw /\ kw <> []) kws).
  { simpl in Hk.
    repeat (destruct Hk as [<- | Hk];
            [repeat constructor; try discriminate;
             (intros H; simpl in H; intuition discriminate)|]).
    contradiction. }
  clear Hk. unfold contains_any.
  induction K as [|kw kws [K1 K2] _ IH]; [reflexivity|].
  cbn [existsb]. rewrite IH, (contains_either_side _ kw _ _ K1 K2).
  destruct (contains kw (upper d)), (contains kw (upper s)),
    (existsb (fun p => contains p (upper d)) kws),
    (existsb (fun p => contains p (upper s)) kws); reflexivity.
Qed.

(** Without a keyword in the description or in the symbol there is no league
    tag. *)
Theorem extract_tags_no_keyword (description symbol : text) :
  (forall kws, In kws (map snd sports_keywords) ->
     contains_any kws (upper description) = false /\
     contains_any kws (upper symbol) = false) ->
  extract_tags description symbol =
  if nonempty description then [strip description] else [].
Proof.
  intros H. unfold extract_tags.
  destruct (find _ sports_keywords) as [e|] eqn:E; [|reflexivity].
  exfalso. apply find_some in E. destruct E as [Hin He].
  rewrite keyword_either_side in He by now apply in_map.
  destruct (H (snd e) (in_map snd _ _ Hin)) as [H1 H2].
  rewrite H1, H2 in He. discriminate.
Qed.

(** ** Tables *)

Lemma monthly_loop_acc (rows : list row) (filename : text)
      (acc : list Transaction) :
  monthly_loop rows filename acc = acc ++ monthly_loop rows filename [].
Proof.
  revert acc. induction rows as [|r rows IH]; intros acc; cbn [monthly_loop].
  - now rewrite app_nil_r.
  - destruct (List.length r <? 8); [apply IH|].
    rewrite IH. rewrite (IH (emit _ [])).
    destruct (caught (monthly_row r filename)); simpl; [|reflexivity].
    now rewrite <- app_assoc.
Qed.

Lemma summary_loop_acc (rows : list row) (filename : text)
      (acc : list Transaction) :
  summary_loop rows filename acc = acc ++ summary_loop rows filename [].
Proof.
  revert acc. induction rows as [|r rows IH]; intros acc; cbn [summary_loop].
  - now rewrite app_nil_r.
  - destruct (List.length r <? 8); [apply IH|].
    rewrite IH. rewrite (IH (emit _ [])).
    destruct (caught (summary_row r filename)); simpl; [|reflexivity].
    now rewrite <- app_assoc.
Qed.

Lemma monthly_loop_app (a b : list row) (filename : text) :
  monthly_loop (a ++ b) filename [] =
  monthly_loop a filename [] ++ monthly_loop b filename [].
Proof.
  induction a as [|r a IH]; [reflexivity|].
  cbn [app monthly_loop]. destruct (List.length r <? 8); [exact IH|].
  rewrite monthly_loop_acc, IH, app_assoc.
  now rewrite <- (monthly_loop_acc a).
Qed.

Lemma summary_loop_app (a b : list row) (filename : text) :
  summary_loop (a ++ b) filename [] =
  summary_loop a filename [] ++ summary_loop b filename [].
Proof.
  induction a as [|r a IH]; [reflexivity|].
  cbn [app summary_loop]. destruct (List.length r <? 8); [exact IH|].
  rewrite summary_loop_acc, IH, app_assoc.
  now rewrite <- (summary_loop_acc a).
Qed.

(** The first row of a table is its header: only the rows after it are read. *)
Lemma parse_monthly_rows (header : row) (rows : list row) (filename : text) :
  parse_monthly_trade_confirmations (header :: rows) filename =
  monthly_loop rows filename [].
Proof. destruct rows; reflexivity. Qed.

Lemma parse_summary_rows (header : row) (rows : list row) (filename : text) :
  parse_trade_confirmation_summary (header :: rows) filename =
  summary_loop rows filename [].
Proof. destruct rows; reflexivity. Qed.

Lemma monthly_loop_filter (rows : list row) (filename : text)
      (acc : list Transaction) :
  monthly_loop (filter wide_enough rows) filename acc =
  monthly_loop rows filename acc.
Proof.
  revert acc. induction rows as [|r rows IH]; intros acc; [reflexivity|].
  cbn [filter monthly_loop]. unfold wide_enough at 1.
  destruct (Nat.leb_spec 8 (List.length r)) as [H|H].
  - cbn [monthly_loop]. apply Nat.ltb_ge in H. rewrite H. apply IH.
  - apply Nat.ltb_lt in H. rewrite H. apply IH.
Qed.

Lemma summary_loop_filter (rows : list row) (filename : text)
      (acc : list Transaction) :
  summary_loop (filter wide_enough rows) filename acc =
  summary_loop rows filename acc.
Proof.
  revert acc. induction rows as [|r rows IH]; intros acc; [reflexivity|].
  cbn [filter summary_loop]. unfold wide_enough at 1.
  destruct (Nat.leb_spec 8 (List.length r)) as [H|H].
  - cbn [summary_loop]. apply Nat.ltb_ge in H. rewrite H. apply IH.
  - apply Nat.ltb_lt in H. rewrite H. apply IH.
Qed.

(** Neither table parser reads the header row, and neither reads a row of
    fewer than eight cells: any header, and the table without its short
    rows, give the same records. *)
Theorem table_header_and_short_rows
        (header header' : row) (rows : list row) (filename : text) :
  parse_monthly_trade_confirmations (header :: rows) filename =
  parse_monthly_trade_confirmations (header' :: filter wide_enough rows) filename
  /\
  parse_trade_confirmation_summary (header :: rows) filename =
  parse_trade_confirmation_summary (header' :: filter wide_enough rows) filename.
Proof.
  rewrite !parse_monthly_rows, !parse_summary_rows.
  now rewrite monthly_loop_filter, summary_loop_filter.
Qed.

(** The records of a table are those of its rows, in the order of the rows:
    a table cut in two gives the records of the first part, then those of
    the second. *)
Theorem table_rows_independent
        (header header' : row) (rows rows' : list row) (filename : text) :
  parse_monthly_trade_confirmations (header :: rows ++ rows') filename =
  parse_monthly_trade_confirmations (header :: rows) filename ++
  parse_monthly_trade_confirmations (header' :: rows') filename
  /\
  parse_trade_confirmation_summary (header :: rows ++ rows') filename =
  parse_trade_confirmation_summary (header :: rows) filename ++
  parse_trade_confirmation_summary (header' :: rows') filename.
Proof.
  rewrite !parse_monthly_rows, !parse_summary_rows.
  now rewrite monthly_loop_app, summary_loop_app.
Qed.

Lemma item_in_range {A} (l : list A) (i : nat) :
  i < List.length l -> exists a, item l i = Returns a.
Proof.
  intros H. unfold item. destruct (nth_error l i) as [a|] eqn:E; [now exists a|].
  apply nth_error_None in E. lia.
Qed.

(** One statement of a [try] block whose indices are in range returns. *)
Ltac returns_step :=
  match goal with
  | |- context [bind (item ?l ?i) _] =>
      let a := fresh "c" in
      let H := fresh "H" in
      destruct (item_in_range l i) as [a H];
      [rewrite ?length_map; lia | rewrite H; cbn [bind]]
  | |- context [bind (parse_date ?c) _] =>
      let a := fresh "d" in
      let H := fresh "H" in
      destruct (parse_date_returns c) as [a H]; rewrite H; cbn [bind]
  | |- context [bind (parse_int ?c) _] =>
      let a := fresh "n" in
      let H := fresh "H" in
      destruct (parse_int_returns c) as [a H]; rewrite H; cbn [bind]
  | |- context [bind (parse_float ?c) _] =>
      let a := fresh "x" in
      let H := fresh "H" in
      destruct (parse_float_returns c) as [a H]; rewrite H; cbn [bind]
  | |- context [bind (if ?i <? ?n then _ else _) _] =>
      let E := fresh "E" in
      destruct (Nat.ltb_spec i n) as [E|E]; cbn [bind]
  end.

(** In a row of eight cells or more every index the [try] block uses is in
    range: the block returns, and the handler is never entered. *)
Theorem table_row_never_raises (r : row) (filename : text) :
  8 <= List.length r ->
  (exists st, monthly_row r filename = Returns st) /\
  (exists st, summary_row r filename = Returns st).
Proof.
  intros H. split.
  - unfold monthly_row.
    destruct (Nat.leb_spec 13 (List.length r)) as [H13|H13];
      repeat returns_step; eauto.
  - unfold summary_row. cbv zeta.
    do 10 returns_step.
    destruct (Nat.leb_spec 17 (List.length r)) as [H17|H17];
      [|destruct (Nat.leb_spec 10 (List.length r)) as [H10|H10]];
      repeat returns_step; eauto.
Qed.

(** ** What every record carries *)

Lemma parse_date_optional (v r : option text) :
  parse_date v = Returns r -> optional_iso r.
Proof.
  intros H. destruct r as [t|]; [|now left]. right. exists t. split; [reflexivity|].
  destruct v as [s|]; [|discriminate H].
  apply parse_date_some in H. destruct H as (_ & y & m & d & _ & Hv & ->).
  now exists y, m, d.
Qed.

Lemma monthly_record_facts
      trade_date asset_type qty_long qty_short subtype_ symbol_ exp_date
      trade_price currency_ trade_type description_ filename t :
  monthly_record trade_date asset_type qty_long qty_short subtype_ symbol_
                 exp_date trade_price currency_ trade_type description_
                 filename = Append t ->
  optional_iso trade_date -> optional_iso exp_date ->
  record_facts filename t /\ exchange t = txt "Kalshi" /\ no_fees t.
Proof.
  unfold monthly_record. destruct (_ || _); [discriminate|].
  intros H Hd He. injection H as <-. repeat split; assumption.
Qed.

Lemma summary_record_facts
      trade_date asset_type qty_long qty_short subtype_ avg_long symbol_
      description_ exp_date commission_ exchange_fees nfa_fees total_fees
      currency_ trade_type filename t :
  summary_record trade_date asset_type qty_long qty_short subtype_ avg_long
                 symbol_ description_ exp_date commission_ exchange_fees
                 nfa_fees total_fees currency_ trade_type filename
  = Append t ->
  optional_iso trade_date -> optional_iso exp_date ->
  record_facts filename t /\ exchange t = txt "Kalshi".
Proof.
  unfold summary_record. destruct (_ || _); [discriminate|].
  intros H Hd He. injection H as <-. repeat split; assumption.
Qed.

Lemma line_record_facts
      trade_date asset_type qty_long qty_short subtype_ symbol_ exchange_
      exp_date trade_price currency_ trade_type description_ filename t :
  line_record trade_date asset_type qty_long qty_short subtype_ symbol_
              exchange_ exp_date trade_price currency_ trade_type
              description_ filename = Append t ->
  optional_iso trade_date -> optional_iso exp_date ->
  record_facts filename t /\ no_fees t /\ tradeType t = Some trade_type.
Proof.
  unfold line_record. destruct (_ || _) eqn:E; [discriminate|].
  intros H Hd He. injection H as <-.
  apply orb_false_iff in E. destruct E as [_ E].
  destruct symbol_ as [|c s]; [discriminate E|].
  repeat split; try assumption.
  unfold tags_from_fields. simpl.
  now destruct description_.
Qed.

(** The dates a [try] block has read are timestamps or [None]. *)
Ltac dates :=
  repeat match goal with
         | H : parse_date _ = Returns _ |- _ => apply parse_date_optional in H
         | H : Returns _ = Returns _ |- _ => injection H as H; subst
         end.

Lemma monthly_row_facts (r : row) (filename : text) (t : Transaction) :
  monthly_row r filename = Returns (Append t) ->
  record_facts filename t /\ exchange t = txt "Kalshi" /\ no_fees t.
Proof.
  unfold monthly_row. intros H.
  destruct (13 <=? List.length r); peel H; injection H as H; dates;
    eapply monthly_record_facts; try exact H; try assumption; now left.
Qed.

Lemma summary_row_facts (r : row) (filename : text) (t : Transaction) :
  summary_row r filename = Returns (Append t) ->
  record_facts filename t /\ exchange t = txt "Kalshi".
Proof.
  unfold summary_row. intros H.
  do 10 (let a := fresh "a" in
         let Ha := fresh "Ha" in
         apply bind_returns in H; destruct H as (a & Ha & H)).
  destruct (17 <=? List.length r); [|destruct (10 <=? List.length r)];
    peel H; injection H as H.
  - match goal with
    | Hx : (if _ then _ else _) = Returns ?e |- _ =>
        assert (optional_iso e)
          by (destruct (11 <? List.length r);
              [peel Hx; now apply parse_date_optional in Hx
              | injection Hx as <-; now left])
    end.
    dates. eapply summary_record_facts; try exact H; assumption.
  - dates. eapply summary_record_facts; try exact H; try assumption; now left.
  - dates. eapply summary_record_facts; try exact H; try assumption; now left.
Qed.

Lemma text_line_facts (groups : captures) (filename : text) (t : Transaction) :
  text_line groups filename = Returns (Append t) ->
  record_facts filename t /\ no_fees t.
Proof.
  unfold text_line. intros H. peel H. injection H as H. dates.
  eapply line_record_facts in H; try assumption. tauto.
Qed.

Lemma summary_line_facts (groups : captures) (filename : text) (t : Transaction) :
  summary_line groups filename = Returns (Append t) ->
  record_facts filename t /\ no_fees t /\
  tradeType t = Some (txt "Closed Position").
Proof.
  unfold summary_line. intros H. peel H. injection H as H. dates.
  eapply line_record_facts in H; assumption.
Qed.

Section Invariants.
Variable P : Transaction -> Prop.
Variable filename : text.

Lemma monthly_loop_forall (rows : list row) (acc : list Transaction) :
  (forall r t, monthly_row r filename = Returns (Append t) -> P t) ->
  Forall P acc -> Forall P (monthly_loop rows filename acc).
Proof.
  intros HP. revert acc.
  induction rows as [|r rows IH]; intros acc Hacc; simpl; [exact Hacc|].
  destruct (List.length r <? 8); apply IH; [exact Hacc|].
  apply emit_invariant; [|exact Hacc].
  intros t Ht. apply caught_append in Ht. eapply HP; exact Ht.
Qed.

Lemma summary_loop_forall (rows : list row) (acc : list Transaction) :
  (forall r t, summary_row r filename = Returns (Append t) -> P t) ->
  Forall P acc -> Forall P (summary_loop rows filename acc).
Proof.
  intros HP. revert acc.
  induction rows as [|r rows IH]; intros acc Hacc; simpl; [exact Hacc|].
  destruct (List.length r <? 8); apply IH; [exact Hacc|].
  apply emit_invariant; [|exact Hacc].
  intros t Ht. apply caught_append in Ht. eapply HP; exact Ht.
Qed.

Lemma text_loop_forall (lines : list text) (acc : list Transaction) :
  (forall g t, text_line g filename = Returns (Append t) -> P t) ->
  Forall P acc -> Forall P (text_loop lines filename acc).
Proof.
  intros HP. revert acc.
  induction lines as [|l lines IH]; intros acc Hacc; simpl; [exact Hacc|].
  apply IH, emit_invariant; [|exact Hacc].
  intros t. unfold text_step. destruct (negb _); [discriminate|].
  destruct (re_match _ _ _) as [[g rest]|]; [|discriminate].
  intros Ht. apply caught_append in Ht. eapply HP; exact Ht.
Qed.

Lemma purchase_sale_loop_forall (lines : list text) (acc : list Transaction) :
  (forall g t, summary_line g filename = Returns (Append t) -> P t) ->
  Forall P acc -> Forall P (purchase_sale_loop lines filename acc).
Proof.
  intros HP. revert acc.
  induction lines as [|l lines IH]; intros acc Hacc;
    cbn [purchase_sale_loop]; [exact Hacc|].
  destruct (negb (nonempty (strip l))); [now apply IH|].
  destruct (contains_any next_sections (strip l)); [exact Hacc|].
  apply IH, emit_invariant; [|exact Hacc].
  intros t. unfold summary_step.
  destruct (re_match _ _ _) as [[g rest]|]; [|discriminate].
  intros Ht. apply caught_append in Ht. eapply HP; exact Ht.
Qed.

(** A property of every record the four [try] blocks append holds of every
    record the four parsers return. *)
Lemma parsers_forall (table : list row) (text_ : text) :
  (forall r t, monthly_row r filename = Returns (Append t) -> P t) ->
  (forall r t, summary_row r filename = Returns (Append t) -> P t) ->
  (forall g t, text_line g filename = Returns (Append t) -> P t) ->
  (forall g t, summary_line g filename = Returns (Append t) -> P t) ->
  Forall P (parse_monthly_trade_confirmations table filename) /\
  Forall P (parse_trade_confirmation_summary table filename) /\
  Forall P (parse_text_transactions text_ filename) /\
  Forall P (parse_purchase_and_sale_summary_text text_ filename).
Proof.
  intros H1 H2 H3 H4.
  unfold parse_monthly_trade_confirmations, parse_trade_confirmation_summary,
    parse_text_transactions, parse_purchase_and_sale_summary_text.
  repeat split.
  - destruct (_ <? _); [constructor | now apply monthly_loop_forall].
  - destruct (_ <? _); [constructor | now apply summary_loop_forall].
  - now apply text_loop_forall.
  - now apply purchase_sale_loop_forall.
Qed.
End Invariants.

(** Every record of the four parsers is stamped with the file name the
    parser was given. *)
Theorem records_carry_source_file
        (table : list row) (text_ filename : text) :
  Forall (fun t => sourceFile t = filename)
         (parse_monthly_trade_confirmations table filename) /\
  Forall (fun t => sourceFile t = filename)
         (parse_trade_confirmation_summary table filename) /\
  Forall (fun t => sourceFile t = filename)
         (parse_text_transactions text_ filename) /\
  Forall (fun t => sourceFile t = filename)
         (parse_purchase_and_sale_summary_text text_ filename).
Proof.
  apply parsers_forall; intros x t H.
  - apply monthly_row_facts in H; unfold record_facts in H; tauto.
  - apply summary_row_facts in H; unfold record_facts in H; tauto.
  - apply text_line_facts in H; unfold record_facts in H; tauto.
  - apply summary_line_facts in H; unfold record_facts in H; tauto.
Qed.

(** In every record of the four parsers [tradeDate] is the ISO-8601
    timestamp at midnight of a day of the calendar, and [expDate] is such a
    timestamp or [None]. *)
Theorem records_carry_iso_dates
        (table : list row) (text_ filename : text) :
  Forall well_dated (parse_monthly_trade_confirmations table filename) /\
  Forall well_dated (parse_trade_confirmation_summary table filename) /\
  Forall well_dated (parse_text_transactions text_ filename) /\
  Forall well_dated (parse_purchase_and_sale_summary_text text_ filename).
Proof.
  assert (D : forall t, has_mandatory_fields t ->
                        record_facts filename t -> well_dated t).
  { intros t [(d & Hd & _) _] (_ & [Hn | (d' & Hd' & Hi)] & He & _).
    - congruence.
    - split; [|exact He]. exists d'. now split. }
  apply parsers_forall; intros x t H; apply D.
  - eapply monthly_row_mandatory; exact H.
  - apply monthly_row_facts in H; exact (proj1 H).
  - eapply summary_row_mandatory; exact H.
  - apply summary_row_facts in H; exact (proj1 H).
  - eapply text_line_mandatory; exact H.
  - apply text_line_facts in H; exact (proj1 H).
  - eapply summary_line_mandatory; exact H.
  - apply summary_line_facts in H; exact (proj1 H).
Qed.

(** In every record of the four parsers the tags are those
    [extract_tags] gives for the record's own description and symbol. *)
Theorem records_tags_from_fields
        (table : list row) (text_ filename : text) :
  Forall tags_from_fields (parse_monthly_trade_confirmations table filename) /\
  Forall tags_from_fields (parse_trade_confirmation_summary table filename) /\
  Forall tags_from_fields (parse_text_transactions text_ filename) /\
  Forall tags_from_fields (parse_purchase_and_sale_summary_text text_ filename).
Proof.
  apply parsers_forall; intros x t H.
  - apply monthly_row_facts in H. unfold record_facts in H. tauto.
  - apply summary_row_facts in H. unfold record_facts in H. tauto.
  - apply text_line_facts in H. unfold record_facts in H. tauto.
  - apply summary_line_facts in H. unfold record_facts in H. tauto.
Qed.

(** Fields the layouts never fill: the table parsers always name the venue
    [Kalshi]; the monthly and the two line parsers leave the four fees at
    [0.0]; the purchase-and-sale parser always gives the trade type
    [Closed Position]. *)
Theorem records_fixed_fields
        (table : list row) (text_ filename : text) :
  Forall (fun t => exchange t = txt "Kalshi" /\ no_fees t)
         (parse_monthly_trade_confirmations table filename) /\
  Forall (fun t => exchange t = txt "Kalshi")
         (parse_trade_confirmation_summary table filename) /\
  Forall no_fees (parse_text_transactions text_ filename) /\
  Forall (fun t => no_fees t /\ tradeType t = Some (txt "Closed Position"))
         (parse_purchase_and_sale_summary_text text_ filename).
Proof.
  unfold parse_monthly_trade_confirmations, parse_trade_confirmation_summary,
    parse_text_transactions, parse_purchase_and_sale_summary_text.
  repeat split.
  - destruct (_ <? _); [constructor|]. apply monthly_loop_forall; [|constructor].
    intros r t H. apply monthly_row_facts in H; unfold record_facts in H; tauto.
  - destruct (_ <? _); [constructor|]. apply summary_loop_forall; [|constructor].
    intros r t H. apply summary_row_facts in H; unfold record_facts in H; tauto.
  - apply text_loop_forall; [|constructor].
    intros r t H. apply text_line_facts in H; unfold record_facts in H; tauto.
  - apply purchase_sale_loop_forall; [|constructor].
    intros r t H. apply summary_line_facts in H. tauto.
Qed.

(** ** A timestamp is not a date to read *)

Lemma digit_not_space (c : ascii) : isdigit c = true -> isspace c = false.
Proof.
  intros H. apply digit_cases in H. simpl in H.
  repeat (destruct H as [<- | H]; [reflexivity|]). contradiction.
Qed.

Lemma length_replace_single (old new : ascii) (s : text) :
  List.length (replace old [new] s) = List.length s.
Proof. rewrite replace_single. apply length_map. Qed.

Lemma month_text_length (m : Z) (ms : text) :
  month_text m ms -> List.length ms <= 2.
Proof. intros [[_ ->] | [_ ->]]; simpl; lia. Qed.

Lemma day_text_length (d : Z) (ds : text) :
  day_text d ds -> List.length ds <= 2.
Proof. intros [[_ ->] | [[_ ->] | [_ ->]]]; simpl; lia. Qed.

(** What [strptime] accepts has ten characters at most. *)
Lemma accepted_form_length (s : text) (y m d : Z) :
  accepted_form s y m d -> List.length s <= 10.
Proof.
  intros (_ & ms & ds & Hm & Hd & ->).
  apply month_text_length in Hm. apply day_text_length in Hd.
  rewrite !length_app, length_pad_dec. simpl. lia.
Qed.

(** A timestamp has nineteen characters, none of them lost to [strip]. *)
Lemma iso_midnight_length (t : text) :
  iso_midnight t -> 19 <= List.length (date_argument t).
Proof.
  intros (y & m & d & Hv & ->).
  assert (Hy : (0 <= y <= 9999)%Z).
  { unfold valid_date in Hv. rewrite !andb_true_iff in Hv. lia. }
  destruct (pad_year y Hy) as (y1 & y2 & y3 & y4 & Ep & D1 & _).
  unfold date_argument. change (txt "-") with ["-"%char].
  rewrite length_replace_single. unfold isoformat. cbn [year month day].
  rewrite Ep.
  set (mid := [y2; y3; y4] ++ txt "-" ++ pad_dec 2 m ++ txt "-" ++ pad_dec 2 d
              ++ txt "T00:00:0").
  assert (E : [y1; y2; y3; y4] ++ txt "-" ++ pad_dec 2 m ++ txt "-" ++
              pad_dec 2 d ++ txt "T00:00:00" = [] ++ y1 :: mid ++ "0"%char :: []).
  { subst mid. repeat rewrite <- app_assoc. reflexivity. }
  rewrite E.
  destruct (strip_keeps [] y1 mid "0" [] (digit_not_space y1 D1) eq_refl)
    as (a' & b' & ->).
  rewrite !length_app. cbn [List.length]. rewrite length_app. cbn [List.length].
  subst mid. rewrite !length_app, !length_pad_dec. simpl. lia.
Qed.

(** [parse_date] does not read what it writes: the timestamp it returns for
    one input gives [None] when handed to it again. *)
Theorem parse_date_rejects_timestamps (v : option text) (t : text) :
  parse_date v = Returns (Some t) -> parse_date (Some t) = Returns None.
Proof.
  intros H.
  assert (Hi : iso_midnight t).
  { destruct (parse_date_optional v (Some t) H) as [? | (t' & E & Hi)];
      [discriminate | now injection E as <-]. }
  destruct (parse_date_returns (Some t)) as [[t2|] E]; [|exact E].
  exfalso. apply parse_date_some in E.
  destruct E as (_ & y & m & d & Ha & _).
  apply accepted_form_length in Ha. apply iso_midnight_length in Hi. lia.
Qed.

(** ** Lines and sections *)

Lemma split_app (sep : ascii) (a b : text) :
  split sep (a ++ sep :: b) = split sep a ++ split sep b.
Proof.
  induction a as [|c a IH].
  - simpl. now rewrite Ascii.eqb_refl.
  - change ((c :: a) ++ sep :: b) with (c :: (a ++ sep :: b)).
    cbn [split]. rewrite IH.
    destruct (Ascii.eqb c sep); [reflexivity|].
    destruct (split sep a) as [|h r] eqn:E; [now destruct (split_not_nil sep a)|].
    reflexivity.
Qed.

(** No line of a text holds a newline. *)
Lemma split_lines (sep : ascii) (s : text) :
  Forall (fun l => ~ In sep l) (split sep s).
Proof.
  induction s as [|c s IH]; [repeat constructor; auto|].
  cbn [split]. destruct (Ascii.eqb_spec c sep) as [->|Hne].
  - constructor; [auto | exact IH].
  - destruct (split sep s) as [|h r]; [repeat constructor; simpl; intuition|].
    inversion IH as [|? ? Hh Hr]; subst. constructor; [|exact Hr].
    simpl. intros [E | Hin]; [congruence | now apply Hh].
Qed.

Lemma lstrip_suffix (s : text) : exists a, s = a ++ lstrip s.
Proof.
  induction s as [|c s [a IH]]; [now exists []|].
  simpl. destruct (isspace c); [|now exists []].
  exists (c :: a). simpl. now rewrite <- IH.
Qed.

(** A stripped text is a piece of the text. *)
Lemma strip_piece (s : text) : exists a b, s = a ++ strip s ++ b.
Proof.
  destruct (lstrip_suffix s) as [a Ha].
  destruct (lstrip_suffix (rev (lstrip s))) as [b Hb].
  exists a, (rev b). unfold strip, rstrip.
  rewrite Ha at 1. f_equal.
  rewrite <- (rev_involutive (lstrip s)) at 1. rewrite Hb at 1.
  now rewrite rev_app_distr.
Qed.

(** A line names a following section whether it is stripped or not. *)
Lemma stop_strip (l : text) :
  contains_any next_sections (strip l) = contains_any next_sections l.
Proof.
  unfold contains_any, next_sections. cbn [existsb].
  assert (K : forall (c : ascii) (mid : text) (d : ascii),
             isspace c = false -> isspace d = false ->
             contains (c :: mid ++ [d]) (strip l) = contains (c :: mid ++ [d]) l).
  { intros c mid d Hc Hd.
    destruct (contains (c :: mid ++ [d]) l) eqn:E.
    - now apply contains_strip.
    - destruct (contains (c :: mid ++ [d]) (strip l)) eqn:E'; [|reflexivity].
      apply contains_spec in E'. destruct E' as (p & q & Hs).
      destruct (strip_piece l) as (a & b & Hl).
      assert (contains (c :: mid ++ [d]) l = true).
      { apply contains_spec. exists (a ++ p), (q ++ b).
        rewrite Hl at 1. rewrite Hs. now rewrite <- !app_assoc. }
      congruence. }
  change (txt "Journal Entries")
    with ("J"%char :: txt "ournal Entrie" ++ ["s"%char]).
  change (txt "Open Positions")
    with ("O"%char :: txt "pen Position" ++ ["s"%char]).
  change (txt "Account Summary")
    with ("A"%char :: txt "ccount Summar" ++ ["y"%char]).
  rewrite (K "J"%char (txt "ournal Entrie") "s"%char eq_refl eq_refl).
  rewrite (K "O"%char (txt "pen Position") "s"%char eq_refl eq_refl).
  rewrite (K "A"%char (txt "ccount Summar") "y"%char eq_refl eq_refl).
  reflexivity.
Qed.

Lemma stop_nonempty (l : text) :
  contains_any next_sections l = true -> nonempty l = true.
Proof. destruct l; [discriminate | reflexivity]. Qed.

(** The loop of the purchase-and-sale parser stops at a line that names a
    following section: the lines after it are not read. *)
Lemma purchase_sale_loop_stops (before : list text) (stop : text)
      (after : list text) (filename : text) (acc : list Transaction) :
  contains_any next_sections stop = true ->
  purchase_sale_loop (before ++ stop :: after) filename acc =
  purchase_sale_loop before filename acc.
Proof.
  intros Hs. revert acc.
  induction before as [|l before IH]; intros acc; cbn [app purchase_sale_loop].
  - rewrite stop_strip, Hs.
    rewrite (stop_nonempty (strip stop)) by now rewrite stop_strip.
    reflexivity.
  - destruct (negb (nonempty (strip l))); [apply IH|].
    destruct (contains_any next_sections (strip l)); [reflexivity | apply IH].
Qed.

(** The purchase-and-sale parser on lines joined into a text. *)
Lemma parse_joined_lines (ls : list text) (filename : text) :
  Forall one_line ls ->
  parse_purchase_and_sale_summary_text (join [newline] ls) filename =
  purchase_sale_loop ls filename [].
Proof.
  intros H. unfold parse_purchase_and_sale_summary_text.
  destruct ls as [|l ls]; [reflexivity|].
  rewrite split_join; [reflexivity | discriminate | exact H].
Qed.

(** In the purchase-and-sale parser nothing after a line that names a
    following section matters: the text cut before that line gives the same
    records. *)
Theorem section_header_ends_parsing
        (before : list text) (stop : text) (after : list text)
        (filename : text) :
  Forall one_line (before ++ stop :: after) ->
  contains_any next_sections stop = true ->
  parse_purchase_and_sale_summary_text
    (join [newline] (before ++ stop :: after)) filename =
  parse_purchase_and_sale_summary_text (join [newline] before) filename.
Proof.
  intros Hl Hs. rewrite !parse_joined_lines.
  - now apply purchase_sale_loop_stops.
  - apply Forall_app in Hl. tauto.
  - exact Hl.
Qed.

Lemma text_loop_app (a b : list text) (filename : text) :
  text_loop (a ++ b) filename [] =
  text_loop a filename [] ++ text_loop b filename [].
Proof.
  induction a as [|l a IH]; [reflexivity|].
  cbn [app text_loop]. rewrite text_loop_acc, IH, app_assoc.
  now rewrite <- (text_loop_acc a).
Qed.

(** [parse_text_transactions] reads the lines one by one: two texts put one
    after the other, a newline between them, give the records of the first
    and then those of the second. *)
Theorem text_parser_concatenates (a b filename : text) :
  parse_text_transactions (a ++ [newline] ++ b) filename =
  parse_text_transactions a filename ++ parse_text_transactions b filename.
Proof.
  unfold parse_text_transactions. cbn [app].
  now rewrite split_app, text_loop_app.
Qed.

(** ** The driver *)

Lemma contains_nil (sub : text) : sub <> [] -> contains sub [] = false.
Proof. destruct sub; [congruence | reflexivity]. Qed.

Lemma contains_joined (sub : text) (ls : list text) :
  ~ In newline sub -> sub <> [] ->
  contains sub (join [newline] ls) = true ->
  exists l, In l ls /\ contains sub l = true.
Proof.
  intros Hin Hne. induction ls as [|l ls IH]; intros H.
  - cbn [join] in H. rewrite contains_nil in H by exact Hne. discriminate.
  - destruct ls as [|l' ls'].
    + exists l. split; [now left | exact H].
    + rewrite join_cons in H by discriminate.
      change (l ++ [newline] ++ join [newline] (l' :: ls'))
        with (l ++ newline :: join [newline] (l' :: ls')) in H.
      rewrite (contains_either_side newline sub _ _ Hin Hne) in H.
      apply orb_true_iff in H. destruct H as [H | H].
      * exists l. split; [now left | exact H].
      * destruct (IH H) as (x & Hx & Hc). exists x. split; [now right | exact Hc].
Qed.

(** What [first_index] finds: the first element that satisfies the test. *)
Lemma first_index_spec (p : text -> bool) (ls : list text) (i : nat) :
  match first_index p ls i with
  | Some j =>
      exists pre x rest,
        ls = pre ++ x :: rest /\ j = i + List.length pre /\
        Forall (fun l => p l = false) pre /\ p x = true
  | None => Forall (fun l => p l = false) ls
  end.
Proof.
  revert i. induction ls as [|l ls IH]; intros i; cbn [first_index].
  - constructor.
  - destruct (p l) eqn:E.
    + exists [], l, ls. repeat split; [simpl; lia | constructor | exact E].
    + specialize (IH (S i)). destruct (first_index p ls (S i)) as [j|].
      * destruct IH as (pre & x & rest & -> & -> & Hpre & Hx).
        exists (l :: pre), x, rest. repeat split; [simpl; lia | | exact Hx].
        now constructor.
      * now constructor.
Qed.

Lemma header_line_exists (all_text : text) :
  contains section_header all_text = true ->
  exists pre hdr rest,
    split newline all_text = pre ++ hdr :: rest /\
    Forall (fun l => contains section_header l = false) pre /\
    contains section_header hdr = true.
Proof.
  intros H. rewrite <- (join_split newline all_text) in H.
  apply contains_joined in H;
    [|intros Hin; simpl in Hin; intuition discriminate | discriminate].
  destruct H as (l & Hl & Hc).
  pose proof (first_index_spec (contains section_header)
                (split newline all_text) 0) as F.
  destruct (first_index _ _ 0) as [j|].
  - destruct F as (pre & x & rest & E & _ & Hpre & Hx). now exists pre, x, rest.
  - rewrite Forall_forall in F. rewrite (F l Hl) in Hc. discriminate.
Qed.

(** The slice the driver cuts and everything after the header give the
    parser the same lines to read. *)
Lemma slice_or_rest (rest : list text) (filename : text) (start : nat) :
  Forall one_line rest ->
  let stop :=
    match first_index (contains_any next_sections) rest start with
    | Some i => i
    | None => start + List.length rest
    end in
  parse_purchase_and_sale_summary_text
    (join [newline] (firstn (stop - start) rest)) filename =
  parse_purchase_and_sale_summary_text (join [newline] rest) filename.
Proof.
  intros Hl stop. subst stop.
  pose proof (first_index_spec (contains_any next_sections) rest start) as F.
  destruct (first_index _ rest start) as [j|].
  - destruct F as (mid & bnd & post & -> & -> & _ & Hb).
    replace (start + List.length mid - start) with (List.length mid) by lia.
    rewrite firstn_exact. rewrite !parse_joined_lines.
    + symmetry. now apply purchase_sale_loop_stops.
    + exact Hl.
    + apply Forall_app in Hl. tauto.
  - replace (start + List.length rest - start) with (List.length rest) by lia.
    now rewrite firstn_all.
Qed.

Section DriverExtras.
Variable pdfplumber_open : text -> outcome pdf_document.
Variable basename : text -> text.

Local Abbreviation parse := (parse_pdf pdfplumber_open basename).
Local Abbreviation extract := (extract_all_text pdfplumber_open).

(** What the driver does once the text is extracted and the header line is
    known. *)
Lemma parse_pdf_after_header (pdf_path all_text : text)
      (pre : list text) (hdr : text) (rest : list text) :
  extract pdf_path = Returns all_text ->
  split newline all_text = pre ++ hdr :: rest ->
  Forall (fun l => contains section_header l = false) pre ->
  contains section_header hdr = true ->
  let transactions :=
    parse_purchase_and_sale_summary_text (join [newline] rest)
                                         (basename pdf_path) in
  parse pdf_path =
  Returns {| success := true; error := None;
             filename_ := basename pdf_path;
             transactionCount := List.length transactions;
             transactions_ := transactions |}.
Proof.
  intros Hx Hsplit Hpre Hhdr transactions. subst transactions.
  unfold parse_pdf, parse_pdf_with, parse_pdf_body_with. rewrite Hx. cbn [bind].
  assert (Hin : contains section_header all_text = true).
  { apply (contains_line section_header all_text hdr); [|exact Hhdr].
    rewrite Hsplit. apply in_or_app. right. now left. }
  rewrite Hin. cbn [negb]. rewrite Hsplit. unfold start_index.
  rewrite (first_index_skip _ pre hdr rest 0 Hpre Hhdr). cbn [option_map bind].
  change (0 + List.length pre) with (List.length pre).
  unfold end_index, slice. rewrite skipn_past.
  assert (Hl : Forall one_line rest).
  { pose proof (split_lines newline all_text) as L. rewrite Hsplit in L.
    apply Forall_app in L. destruct L as [_ L]. now inversion L. }
  pose proof (slice_or_rest rest (basename pdf_path) (S (List.length pre)) Hl) as E.
  cbv zeta in E.
  replace (List.length (pre ++ hdr :: rest))
    with (S (List.length pre) + List.length rest)
    by (rewrite length_app; simpl; lia).
  destruct (first_index (contains_any next_sections) rest (S (List.length pre)));
    cbn [try_except]; now rewrite E.
Qed.

(** The records of a document are those of all the text after its first
    header line: cutting the section at the next header changes nothing,
    since the parser stops there itself. *)
Theorem parse_pdf_reads_after_header (pdf_path all_text : text)
        (pre : list text) (hdr : text) (rest : list text) :
  extract pdf_path = Returns all_text ->
  split newline all_text = pre ++ hdr :: rest ->
  Forall (fun l => contains section_header l = false) pre ->
  contains section_header hdr = true ->
  let transactions :=
    parse_purchase_and_sale_summary_text (join [newline] rest)
                                         (basename pdf_path) in
  parse pdf_path =
  Returns {| success := true; error := None;
             filename_ := basename pdf_path;
             transactionCount := List.length transactions;
             transactions_ := transactions |}.
Proof. apply parse_pdf_after_header. Qed.

(** Once the text is extracted, the result is a success exactly when the
    text holds the header: locating and parsing the section never fail. *)
Theorem parse_pdf_success_iff_header (pdf_path all_text : text) :
  extract pdf_path = Returns all_text ->
  exists r, parse pdf_path = Returns r /\
            success r = contains section_header all_text.
Proof.
  intros Hx. destruct (contains section_header all_text) eqn:Hc.
  - destruct (header_line_exists all_text Hc) as (pre & hdr & rest & Hs & Hp & Hh).
    eexists. split;
      [exact (parse_pdf_after_header pdf_path all_text pre hdr rest Hx Hs Hp Hh)
      | reflexivity].
  - eexists. split;
      [unfold parse_pdf, parse_pdf_with, parse_pdf_body_with; rewrite Hx; cbn [bind]; rewrite Hc;
       reflexivity
      | reflexivity].
Qed.

(** The envelope, whatever the collaborators do: it names the file, its
    count is the number of its records, a success carries no error, and a
    failure carries an error and no record. *)
Theorem parse_pdf_envelope (pdf_path : text) (r : ParseResult) :
  parse pdf_path = Returns r ->
  filename_ r = basename pdf_path /\
  transactionCount r = List.length (transactions_ r) /\
  (success r = true -> error r = None) /\
  (success r = false -> error r <> None /\ transactions_ r = []) /\
  Forall (fun t => sourceFile t = basename pdf_path /\ has_mandatory_fields t)
         (transactions_ r).
Proof.
  change (parse pdf_path)
    with (try_except (parse_pdf_body pdfplumber_open pdf_path (basename pdf_path))
            (fun e => Returns (failure (exn_msg e) (basename pdf_path)))).
  destruct (parse_pdf_body pdfplumber_open pdf_path (basename pdf_path))
    as [r'|e] eqn:E; cbn [try_except]; intros H; injection H as <-.
  - unfold parse_pdf_body, parse_pdf_body_with in E. apply bind_returns in E.
    destruct E as (all_text & _ & E).
    destruct (negb (contains section_header all_text)).
    + injection E as <-. cbn. repeat split; try discriminate; constructor.
    + apply bind_returns in E. destruct E as (start & _ & E).
      injection E as <-. cbn. repeat split; try discriminate.
      unfold parse_purchase_and_sale_summary_text. apply Forall_and.
      * apply purchase_sale_loop_forall; [|constructor].
        intros g t' Hg. apply summary_line_facts in Hg.
        unfold record_facts in Hg. tauto.
      * apply purchase_sale_loop_mandatory. constructor.
  - cbn. repeat split; try discriminate; constructor.
Qed.
End DriverExtras.

(** ** Pages *)

Lemma collect_text_pages (texts : list (option text)) (acc : text) :
  collect_text (map Returns texts) acc =
  Returns (acc ++ List.concat (map (fun t => or_empty t ++ [newline])
                              (filter truthy texts))).
Proof.
  revert acc. induction texts as [|t texts IH]; intros acc; cbn [map collect_text bind].
  - cbn. now rewrite app_nil_r.
  - cbn [filter]. destruct (truthy t); rewrite IH; [|reflexivity].
    cbn [map List.concat]. now rewrite <- !app_assoc.
Qed.

Lemma split_pages (ts : list text) :
  split newline (List.concat (map (fun t => t ++ [newline]) ts)) =
  flat_map (split newline) ts ++ [[]].
Proof.
  induction ts as [|t ts IH]; [reflexivity|].
  cbn [map List.concat flat_map]. rewrite <- app_assoc.
  change ([newline] ++ List.concat (map (fun t => t ++ [newline]) ts))
    with (newline :: List.concat (map (fun t => t ++ [newline]) ts)).
  now rewrite split_app, IH, <- app_assoc.
Qed.

(** The lines of a document are the lines of its pages, page after page,
    and an empty line at the end: pages without text add nothing, and no
    line runs from one page into the next. *)
Theorem document_lines (pdfplumber_open : text -> outcome pdf_document)
        (pdf_path : text) (texts : list (option text)) :
  pdfplumber_open pdf_path =
  Returns {| pdf_pages := Returns (map Returns texts); pdf_exit := Returns tt |} ->
  exists all_text,
    extract_all_text pdfplumber_open pdf_path = Returns all_text /\
    split newline all_text = flat_map (split newline) (page_texts texts) ++ [[]].
Proof.
  intros H. unfold extract_all_text. rewrite H. cbn [bind].
  unfold with_document. cbn [pdf_exit pdf_pages bind].
  rewrite collect_text_pages. eexists. split; [reflexivity|].
  cbn [app]. unfold page_texts.
  rewrite <- split_pages. now rewrite map_map.
Qed.

(** A page that raises ends the extraction with its exception, whatever
    the pages after it hold. *)
Lemma collect_text_raises (texts : list (option text)) (e : exn)
      (rest : list page) (acc : text) :
  collect_text (map Returns texts ++ Raises e :: rest) acc = Raises e.
Proof.
  revert acc. induction texts as [|t texts IH]; intros acc; [reflexivity|].
  cbn [map app collect_text bind]. destruct (truthy t); apply IH.
Qed.

(** The exception of a page is the failure of the document, whatever the
    pages before it held: no partial result is returned.  The error is the
    message of the page's exception when the handle is then released
    without one, and the message of the release's exception when the
    release raises too. *)
Theorem parse_pdf_page_failure
        (pdfplumber_open : text -> outcome pdf_document)
        (basename : text -> text) (pdf_path : text)
        (texts : list (option text)) (e : exn) (rest : list page)
        (released : outcome unit) :
  pdfplumber_open pdf_path =
  Returns {| pdf_pages := Returns (map Returns texts ++ Raises e :: rest);
             pdf_exit := released |} ->
  parse_pdf pdfplumber_open basename pdf_path =
  Returns (failure (exn_msg match released with
                            | Returns _ => e
                            | Raises e' => e'
                            end)
                   (basename pdf_path)).
Proof.
  intros H. unfold parse_pdf, parse_pdf_with, parse_pdf_body_with, extract_all_text.
  rewrite H. cbn [bind]. unfold with_document. cbn [pdf_exit pdf_pages bind].
  rewrite collect_text_raises. now destruct released.
Qed.

(** ** Counting *)

Lemma emit_length {A} (st : step A) (acc : list A) :
  List.length (emit st acc) <= S (List.length acc).
Proof. destruct st; simpl; [rewrite length_app; simpl; lia | lia]. Qed.

Lemma monthly_loop_length (rows : list row) (filename : text)
      (acc : list Transaction) :
  List.length (monthly_loop rows filename acc) <=
  List.length acc + List.length (filter wide_enough rows).
Proof.
  revert acc. induction rows as [|r rows IH]; intros acc;
    cbn [monthly_loop filter]; [simpl; lia|].
  unfold wide_enough at 1.
  destruct (Nat.leb_spec 8 (List.length r)) as [H|H].
  - apply Nat.ltb_ge in H. rewrite H. etransitivity; [apply IH|].
    pose proof (emit_length (caught (monthly_row r filename)) acc).
    simpl. lia.
  - apply Nat.ltb_lt in H. rewrite H. apply IH.
Qed.

Lemma summary_loop_length (rows : list row) (filename : text)
      (acc : list Transaction) :
  List.length (summary_loop rows filename acc) <=
  List.length acc + List.length (filter wide_enough rows).
Proof.
  revert acc. induction rows as [|r rows IH]; intros acc;
    cbn [summary_loop filter]; [simpl; lia|].
  unfold wide_enough at 1.
  destruct (Nat.leb_spec 8 (List.length r)) as [H|H].
  - apply Nat.ltb_ge in H. rewrite H. etransitivity; [apply IH|].
    pose proof (emit_length (caught (summary_row r filename)) acc).
    simpl. lia.
  - apply Nat.ltb_lt in H. rewrite H. apply IH.
Qed.

Lemma text_loop_length (lines : list text) (filename : text)
      (acc : list Transaction) :
  List.length (text_loop lines filename acc) <=
  List.length acc + List.length (filter (fun l => nonempty (strip l)) lines).
Proof.
  revert acc. induction lines as [|l lines IH]; intros acc;
    cbn [text_loop filter]; [simpl; lia|].
  etransitivity; [apply IH|]. unfold text_step.
  destruct (nonempty (strip l)); cbn [negb emit]; [|lia].
  pose proof (emit_length
                (match re_match 12 text_pattern (strip l) with
                 | Some (groups, _) => caught (text_line groups filename)
                 | None => Continue
                 end) acc).
  simpl. lia.
Qed.

Lemma purchase_sale_loop_length (lines : list text) (filename : text)
      (acc : list Transaction) :
  List.length (purchase_sale_loop lines filename acc) <=
  List.length acc + List.length (filter (fun l => nonempty (strip l)) lines).
Proof.
  revert acc. induction lines as [|l lines IH]; intros acc;
    cbn [purchase_sale_loop filter]; [simpl; lia|].
  destruct (nonempty (strip l)); cbn [negb]; [|apply IH].
  destruct (contains_any next_sections (strip l)); [simpl; lia|].
  etransitivity; [apply IH|].
  pose proof (emit_length (summary_step (strip l) filename) acc).
  simpl. lia.
Qed.

(** A row or a line gives one record at most: a table gives no more
    records than it has rows of eight cells or more after its header, a
    text no more than it has lines that are not blank. *)
Theorem one_record_per_row (table : list row) (text_ filename : text) :
  let rows := List.length (filter wide_enough (tl table)) in
  let lines :=
    List.length (filter (fun l => nonempty (strip l)) (split newline text_)) in
  List.length (parse_monthly_trade_confirmations table filename) <= rows /\
  List.length (parse_trade_confirmation_summary table filename) <= rows /\
  List.length (parse_text_transactions text_ filename) <= lines /\
  List.length (parse_purchase_and_sale_summary_text text_ filename) <= lines.
Proof.
  intros rows lines.
  unfold parse_monthly_trade_confirmations, parse_trade_confirmation_summary,
    parse_text_transactions, parse_purchase_and_sale_summary_text.
  repeat split.
  - destruct (_ <? _); [simpl; lia | apply (monthly_loop_length _ _ [])].
  - destruct (_ <? _); [simpl; lia | apply (summary_loop_length _ _ [])].
  - apply (text_loop_length _ _ []).
  - apply (purchase_sale_loop_length _ _ []).
Qed.

(** ** What a match of the line patterns holds *)

Section MatcherSound.
Variable R : Type.

Lemma plus_greedy_inv (p : ascii -> bool) (k : text -> option R)
      (s : text) (res : R) :
  plus_greedy p k s = Some res ->
  exists a t, s = a ++ t /\ a <> [] /\ Forall (fun c => p c = true) a /\
              k t = Some res.
Proof.
  induction s as [|c s IH]; cbn [plus_greedy]; [discriminate|].
  destruct (p c) eqn:E; [|discriminate].
  destruct (plus_greedy p k s) as [r|] eqn:G.
  - intros H. injection H as ->.
    destruct (IH eq_refl) as (a & t & -> & _ & Ha & Hk).
    exists (c :: a), t. repeat split; [discriminate | now constructor | exact Hk].
  - intros H. exists [c], s. repeat split; [discriminate | | exact H].
    now repeat constructor.
Qed.

Lemma star_lazy_inv (p : ascii -> bool) (k : text -> option R)
      (s : text) (res : R) :
  star_lazy p k s = Some res ->
  exists a t, s = a ++ t /\ Forall (fun c => p c = true) a /\ k t = Some res.
Proof.
  induction s as [|c s IH]; cbn [star_lazy].
  - destruct (k []) eqn:E; [|discriminate].
    intros H. injection H as ->. now exists [], [].
  - destruct (k (c :: s)) eqn:E.
    + intros H. injection H as ->. now exists [], (c :: s).
    + destruct (p c) eqn:Ep; [|discriminate]. intros H.
      destruct (IH H) as (a & t & -> & Ha & Hk).
      exists (c :: a), t. repeat split; [now constructor | exact Hk].
Qed.

(** What the matcher finds is a match, and the continuation accepted it. *)
Lemma rx_matches (w : text) (r : regex) :
  forall (s : text) (caps : captures) (k : text -> captures -> option R)
         (res : R),
    rx w r s caps k = Some res ->
    exists s' caps', matches w r s caps s' caps' /\ k s' caps' = Some res.
Proof.
  induction r as [|c|p|a IHa b IHb|a IHa b IHb|p|p|i r IH| |];
    intros s caps k res H; cbn [rx] in H.
  - exists s, caps. split; [constructor | exact H].
  - destruct s as [|x t]; [discriminate|].
    destruct (Ascii.eqb_spec x c) as [->|_]; [|discriminate].
    exists t, caps. split; [constructor | exact H].
  - destruct s as [|x t]; [discriminate|].
    destruct (p x) eqn:E; [|discriminate].
    exists t, caps. split; [now constructor | exact H].
  - apply IHa in H. destruct H as (s1 & caps1 & Ha & H).
    apply IHb in H. destruct H as (s2 & caps2 & Hb & H).
    exists s2, caps2. split; [econstructor; eassumption | exact H].
  - destruct (rx w a s caps k) as [r0|] eqn:E.
    + injection H as ->. apply IHa in E. destruct E as (s' & caps' & Ha & Hk).
      exists s', caps'. split; [now apply M_AltL | exact Hk].
    + apply IHb in H. destruct H as (s' & caps' & Hb & Hk).
      exists s', caps'. split; [now apply M_AltR | exact Hk].
  - apply plus_greedy_inv in H. destruct H as (a & t & -> & Hne & Ha & Hk).
    exists t, caps. split; [now constructor | exact Hk].
  - apply star_lazy_inv in H. destruct H as (a & t & -> & Ha & Hk).
    exists t, caps. split; [now constructor | exact Hk].
  - apply IH in H. destruct H as (s' & caps' & Hr & Hk).
    eexists _, _. split; [constructor; exact Hr | exact Hk].
  - destruct (Nat.eqb_spec (List.length s) (List.length w)); [|discriminate].
    exists s, caps. split; [now constructor | exact H].
  - destruct s as [|c [|c' t]].
    + exists [], caps. split; [constructor; now left | exact H].
    + destruct (Ascii.eqb_spec c newline) as [->|_]; [|discriminate].
      exists [newline], caps. split; [constructor; now right | exact H].
    + discriminate.
Qed.
End MatcherSound.

(** A match takes a prefix of the text. *)
Lemma matches_prefix (w : text) (r : regex) (s : text) (caps : captures)
      (s' : text) (caps' : captures) :
  matches w r s caps s' caps' -> exists a, s = a ++ s'.
Proof.
  induction 1 as [s caps|c t caps|p c t caps Hp
                  |a b s caps s1 caps1 s2 caps2 _ [x ->] _ [y ->]
                  |a b s caps s' caps' _ IH|a b s caps s' caps' _ IH
                  |p a t caps _ _|p a t caps _
                  |i r s caps s' caps' _ IH|s caps _|s caps _];
    try (now exists []); try (now exists [c]); try (now exists a);
    try exact IH.
  exists (x ++ y). now rewrite <- app_assoc.
Qed.

Section Inversions.
Variable w : text.

Lemma seq_inv a b s caps s2 caps2 :
  matches w (Seq a b) s caps s2 caps2 ->
  exists s1 caps1, matches w a s caps s1 caps1 /\ matches w b s1 caps1 s2 caps2.
Proof. inversion 1; subst. eauto. Qed.

Lemma eps_inv s caps s' caps' :
  matches w Eps s caps s' caps' -> s' = s /\ caps' = caps.
Proof. inversion 1; subst. now split. Qed.

Lemma bol_inv s caps s' caps' :
  matches w Bol s caps s' caps' -> s' = s /\ caps' = caps.
Proof. inversion 1; subst. now split. Qed.

Lemma eol_inv s caps s' caps' :
  matches w Eol s caps s' caps' -> s' = s /\ caps' = caps.
Proof. inversion 1; subst. now split. Qed.

Lemma chr_inv c s caps s' caps' :
  matches w (Chr c) s caps s' caps' -> s = c :: s' /\ caps' = caps.
Proof. inversion 1; subst. now split. Qed.

Lemma cls_inv p s caps s' caps' :
  matches w (Cls p) s caps s' caps' ->
  exists c, s = c :: s' /\ p c = true /\ caps' = caps.
Proof. inversion 1; subst. eauto. Qed.

Lemma plus_inv p s caps s' caps' :
  matches w (Plus p) s caps s' caps' ->
  exists a, s = a ++ s' /\ a <> [] /\ Forall (fun c => p c = true) a /\
            caps' = caps.
Proof. inversion 1; subst. eauto. Qed.

Lemma lazy_inv p s caps s' caps' :
  matches w (LazyStar p) s caps s' caps' ->
  exists a, s = a ++ s' /\ Forall (fun c => p c = true) a /\ caps' = caps.
Proof. inversion 1; subst. eauto. Qed.

Lemma grp_inv i r s caps s' caps2 :
  matches w (Grp i r) s caps s' caps2 ->
  exists caps', matches w r s caps s' caps' /\
                caps2 = set_cap i (consumed s s') caps'.
Proof. inversion 1; subst. eauto. Qed.

Lemma grp_plus_inv i p s caps s' caps' :
  matches w (Grp i (Plus p)) s caps s' caps' ->
  exists a, s = a ++ s' /\ a <> [] /\ Forall (fun c => p c = true) a /\
            caps' = set_cap i a caps.
Proof.
  intros H. apply grp_inv in H. destruct H as (c1 & H & ->).
  apply plus_inv in H. destruct H as (a & -> & Hne & Ha & ->).
  exists a. rewrite consumed_app. auto.
Qed.

Lemma grp_lazy_inv i p s caps s' caps' :
  matches w (Grp i (LazyStar p)) s caps s' caps' ->
  exists a, s = a ++ s' /\ Forall (fun c => p c = true) a /\
            caps' = set_cap i a caps.
Proof.
  intros H. apply grp_inv in H. destruct H as (c1 & H & ->).
  apply lazy_inv in H. destruct H as (a & -> & Ha & ->).
  exists a. rewrite consumed_app. auto.
Qed.

(** The date fields of a line are of the strict form. *)
Lemma grp_date_inv i s caps s' caps' :
  matches w (Grp i re_date) s caps s' caps' ->
  exists a, s = a ++ s' /\ strict_ymd a = true /\ caps' = set_cap i a caps.
Proof.
  intros H. apply grp_inv in H. destruct H as (c1 & H & ->).
  unfold re_date in H. cbv [times seqs repeat fold_right] in H.
  repeat match goal with
         | M : matches _ (Seq _ _) _ _ _ _ |- _ =>
             apply seq_inv in M; destruct M as (? & ? & ? & M)
         end.
  repeat match goal with
         | M : matches _ (Cls _) _ _ _ _ |- _ =>
             apply cls_inv in M; destruct M as (? & ? & ? & ?)
         | M : matches _ (Chr _) _ _ _ _ |- _ =>
             apply chr_inv in M; destruct M as (? & ?)
         | M : matches _ Eps _ _ _ _ |- _ =>
             apply eps_inv in M; destruct M as (? & ?)
         end.
  subst.
  match goal with
  | |- context [consumed (?y1 :: ?y2 :: ?y3 :: ?y4 :: ?h1 :: ?m1 :: ?m2 :: ?h2
                          :: ?d1 :: ?d2 :: ?r) ?r] =>
      exists [y1; y2; y3; y4; h1; m1; m2; h2; d1; d2];
      let E := fresh "E" in
      pose proof (consumed_app [y1; y2; y3; y4; h1; m1; m2; h2; d1; d2] r) as E;
      cbn [app] in E; rewrite E
  end.
  repeat split. cbn [strict_ymd].
  repeat match goal with H : isdigit _ = true |- _ => rewrite H; clear H end.
  reflexivity.
Qed.

Lemma lit_inv (word : string) s caps s' caps' :
  matches w (lit word) s caps s' caps' -> s = txt word ++ s' /\ caps' = caps.
Proof.
  unfold lit. revert s. induction (txt word) as [|c t IH]; intros s H;
    cbn [map seqs fold_right] in H.
  - apply eps_inv in H. destruct H as [-> ->]. now split.
  - apply seq_inv in H. destruct H as (s1 & c1 & H1 & H).
    apply chr_inv in H1. destruct H1 as [-> ->].
    destruct (IH _ H) as [-> ->]. now split.
Qed.

(** The side of a line is [YES] or [NO]. *)
Lemma grp_side_inv i s caps s' caps' :
  matches w (Grp i (Alt (lit "YES") (lit "NO"))) s caps s' caps' ->
  exists a, s = a ++ s' /\ (a = txt "YES" \/ a = txt "NO") /\
            caps' = set_cap i a caps.
Proof.
  intros H. apply grp_inv in H. destruct H as (c1 & H & ->).
  inversion H; subst;
    match goal with M : matches _ (lit _) _ _ _ _ |- _ =>
      apply lit_inv in M; destruct M as [-> ->] end;
    rewrite consumed_app; eauto.
Qed.
End Inversions.

Lemma seqs_app_inv (w : text) (xs ys : list regex) s caps s' caps' :
  matches w (seqs (xs ++ ys)) s caps s' caps' ->
  exists s1 caps1,
    matches w (seqs xs) s caps s1 caps1 /\ matches w (seqs ys) s1 caps1 s' caps'.
Proof.
  revert s caps. induction xs as [|x xs IH]; intros s caps H.
  - exists s, caps. split; [constructor | exact H].
  - cbn [app seqs fold_right] in H. apply seq_inv in H.
    destruct H as (s1 & c1 & Hx & H). apply IH in H.
    destruct H as (s2 & c2 & Hxs & Hys).
    exists s2, c2. split; [|exact Hys].
    cbn [seqs fold_right]. econstructor; eassumption.
Qed.

Lemma fields_inv (w : text) s caps s' caps' :
  matches w (seqs re_fields) s caps s' caps' ->
  exists f, fields_shaped f /\ caps' = set_fields f caps.
Proof.
  intros H. cbv [re_fields seqs fold_right] in H.
  repeat match goal with
         | M : matches _ (Seq _ _) _ _ _ _ |- _ =>
             apply seq_inv in M; destruct M as (? & ? & ? & M)
         end.
  repeat match goal with
         | M : matches _ Bol _ _ _ _ |- _ =>
             apply bol_inv in M; destruct M as (? & ?)
         | M : matches _ Eps _ _ _ _ |- _ =>
             apply eps_inv in M; destruct M as (? & ?)
         | M : matches _ (Plus _) _ _ _ _ |- _ =>
             apply plus_inv in M; destruct M as (? & ? & _ & _ & ?)
         | M : matches _ (Grp _ re_date) _ _ _ _ |- _ =>
             apply grp_date_inv in M; destruct M as (? & ? & ? & ?)
         | M : matches _ (Grp _ (Plus _)) _ _ _ _ |- _ =>
             apply grp_plus_inv in M; destruct M as (? & ? & ? & ? & ?)
         | M : matches _ (Grp _ (Alt _ _)) _ _ _ _ |- _ =>
             apply grp_side_inv in M; destruct M as (? & ? & ? & ?)
         end.
  subst.
  match goal with
  | |- exists f, _ /\
         set_cap 9 ?g9 (set_cap 8 ?g8 (set_cap 7 ?g7 (set_cap 6 ?g6
         (set_cap 5 ?g5 (set_cap 4 ?g4 (set_cap 3 ?g3 (set_cap 2 ?g2
         (set_cap 1 ?g1 (set_cap 0 ?g0 _))))))))) = _ =>
      exists (mkFields g0 g1 g2 g3 g4 g5 g6 g7 g8 g9)
  end.
  split; [|reflexivity].
  unfold fields_shaped, all_of.
  cbn [f_date f_asset f_long f_short f_side f_symbol f_exchange f_exp
       f_number f_currency].
  repeat split; try assumption.
Qed.

(** The groups of a line that matches the purchase-and-sale pattern. *)
Lemma summary_pattern_groups (line : text) (groups : captures) (rest : text) :
  re_match 11 summary_pattern line = Some (groups, rest) ->
  exists f g10,
    fields_shaped f /\ all_of dot g10 /\
    groups = set_cap 10 g10 (set_fields f (repeat None 11)).
Proof.
  unfold re_match. intros H. apply rx_matches in H.
  destruct H as (s' & caps' & H & E). injection E as -> ->.
  unfold summary_pattern in H. apply seqs_app_inv in H.
  destruct H as (s1 & c1 & Hf & H).
  apply fields_inv in Hf. destruct Hf as (f & Hf & ->).
  cbv [seqs fold_right] in H.
  apply seq_inv in H. destruct H as (s2 & c2 & H10 & H).
  apply seq_inv in H. destruct H as (s3 & c3 & He & H).
  apply eps_inv in H. destruct H as [-> ->].
  apply eol_inv in He. destruct He as [-> ->].
  apply grp_plus_inv in H10. destruct H10 as (g10 & -> & Hne & Hd & ->).
  exists f, g10. split; [exact Hf | split; [split; assumption | reflexivity]].
Qed.

(** The groups of a line that matches the pattern of
    [parse_text_transactions]. *)
Lemma text_pattern_groups (line : text) (groups : captures) (rest : text) :
  re_match 12 text_pattern line = Some (groups, rest) ->
  exists f g10 g11,
    fields_shaped f /\ Forall (fun c => dot c = true) g10 /\ all_of dot g11 /\
    groups = set_cap 11 g11 (set_cap 10 g10 (set_fields f (repeat None 12))).
Proof.
  unfold re_match. intros H. apply rx_matches in H.
  destruct H as (s' & caps' & H & E). injection E as -> ->.
  unfold text_pattern in H. apply seqs_app_inv in H.
  destruct H as (s1 & c1 & Hf & H).
  apply fields_inv in Hf. destruct Hf as (f & Hf & ->).
  cbv [seqs fold_right] in H.
  apply seq_inv in H. destruct H as (s2 & c2 & H10 & H).
  apply seq_inv in H. destruct H as (s3 & c3 & Hs & H).
  apply seq_inv in H. destruct H as (s4 & c4 & H11 & H).
  apply seq_inv in H. destruct H as (s5 & c5 & He & H).
  apply eps_inv in H. destruct H as [-> ->].
  apply eol_inv in He. destruct He as [-> ->].
  apply grp_plus_inv in H11. destruct H11 as (g11 & -> & Hne & Hd & ->).
  apply plus_inv in Hs. destruct Hs as (sp & -> & _ & _ & ->).
  apply grp_lazy_inv in H10. destruct H10 as (g10 & -> & Hl & ->).
  exists f, g10, g11.
  split; [exact Hf | split; [exact Hl | split; [split; assumption | reflexivity]]].
Qed.

(** ** Quantities *)

Lemma digit_not_c_space (c : ascii) : isdigit c = true -> c_isspace c = false.
Proof. intros H. now destruct (digit_facts c H). Qed.

Lemma c_lstrip_fixed (c : ascii) (r : text) :
  c_isspace c = false -> c_lstrip (c :: r) = c :: r.
Proof. intros H. simpl. now rewrite H. Qed.

Lemma scan_digits_all (g : text) (acc : Z) :
  Forall (fun c => isdigit c = true) g ->
  scan_digits false acc g =
  Some (fold_left (fun a c => 10 * a + digit_val c)%Z g acc).
Proof.
  intros H. revert acc. induction H as [|c g Hc _ IH]; intros acc; [reflexivity|].
  cbn [scan_digits fold_left]. rewrite Hc. apply IH.
Qed.

Lemma fold_digits_nonneg (g : text) (acc : Z) :
  Forall (fun c => isdigit c = true) g -> (0 <= acc)%Z ->
  (0 <= fold_left (fun a c => 10 * a + digit_val c)%Z g acc)%Z.
Proof.
  intros H. revert acc. induction H as [|c g Hc _ IH]; intros acc Ha; [exact Ha|].
  cbn [fold_left]. apply IH. destruct (digit_facts c Hc) as (_ & _ & _ & R & _).
  lia.
Qed.

(** A text that starts and ends with a digit, all digits in between. *)
Lemma digits_ends (g : text) :
  g <> [] -> Forall (fun c => isdigit c = true) g ->
  (exists c r, g = c :: r /\ isdigit c = true) /\
  (exists c r, rev g = c :: r /\ isdigit c = true).
Proof.
  intros Hne H. split.
  - destruct g as [|c r]; [congruence|]. inversion H; subst. now exists c, r.
  - apply Forall_rev in H. destruct (rev g) as [|c r] eqn:E.
    + apply (f_equal (@rev ascii)) in E. rewrite rev_involutive in E.
      simpl in E. congruence.
    + inversion H; subst. now exists c, r.
Qed.

Lemma py_int_of_digits (g : text) :
  g <> [] -> Forall (fun c => isdigit c = true) g ->
  py_int g =
  if Nat.leb (List.length g) int_max_str_digits
  then Returns (digits_val g)
  else Raises (ValueError "Exceeds the limit (4300 digits) for integer string conversion").
Proof.
  intros Hne H.
  destruct (digits_ends g Hne H) as [(c & r & E & Hc) (c' & r' & E' & Hc')].
  assert (Hc_strip : c_strip g = g).
  { unfold c_strip. rewrite E at 1.
    rewrite (c_lstrip_fixed c r (digit_not_c_space c Hc)). rewrite <- E, E'.
    rewrite (c_lstrip_fixed c' r' (digit_not_c_space c' Hc')). rewrite <- E'.
    apply rev_involutive. }
  pose proof (digit_count_digits g H) as Hcount.
  destruct g as [|x g']; [congruence|]. injection E as -> ->.
  unfold py_int. rewrite Hc_strip. unfold split_sign.
  destruct (digit_facts c Hc) as (_ & M & P & _ & _). rewrite M, P.
  unfold digit_string. rewrite Hc. inversion H; subst.
  rewrite scan_digits_all by assumption. rewrite Hcount. reflexivity.
Qed.

Lemma parse_int_of_digits (g : text) :
  g <> [] -> Forall (fun c => isdigit c = true) g ->
  parse_int (Some g) =
  Returns (if Nat.leb (List.length g) int_max_str_digits
           then digits_val g else 0%Z) /\
  (0 <= digits_val g)%Z.
Proof.
  intros Hne H.
  destruct (digits_ends g Hne H) as [(c & r & E & Hc) (c' & r' & E' & Hc')].
  assert (Hs : strip g = g).
  { apply strip_fixed.
    - rewrite E. apply lstrip_fixed. now apply digit_not_space.
    - rewrite E'. apply lstrip_fixed. now apply digit_not_space. }
  assert (Hn : ~ In newline g).
  { intros Hin. rewrite Forall_forall in H. specialize (H _ Hin). discriminate H. }
  split.
  - pose proof (py_int_of_digits g Hne H) as Hint.
    destruct g as [|x g']; [congruence|].
    unfold parse_int. rewrite Hs, (replace_absent _ _ _ Hn), Hint.
    destruct (Nat.leb _ _); reflexivity.
  - unfold digits_val. apply fold_digits_nonneg; [exact H | lia].
Qed.

(** Whatever [parse_int] reads from a text of digits is not negative. *)
Lemma parse_int_digits_nonneg (g : text) (n : Z) :
  g <> [] -> Forall (fun c => isdigit c = true) g ->
  parse_int (Some g) = Returns n -> (0 <= n)%Z.
Proof.
  intros Hne H E. destruct (parse_int_of_digits g Hne H) as [P N].
  rewrite P in E. injection E as <-.
  destruct (Nat.leb _ _); [exact N | lia].
Qed.

(** On a text of digits [parse_int] gives the number the digits write,
    which is not negative, as long as the digits are no more than [int]
    converts (4300); on a longer text of digits [int] raises and
    [parse_int] gives [0]. *)
Theorem parse_int_reads_digits (g : text) :
  g <> [] -> Forall (fun c => isdigit c = true) g ->
  (List.length g <= int_max_str_digits ->
   parse_int (Some g) = Returns (digits_val g)) /\
  (int_max_str_digits < List.length g ->
   py_int g = Raises (ValueError "Exceeds the limit (4300 digits) for integer string conversion") /\
   parse_int (Some g) = Returns 0%Z) /\
  (0 <= digits_val g)%Z.
Proof.
  intros Hne H. destruct (parse_int_of_digits g Hne H) as [P N].
  pose proof (py_int_of_digits g Hne H) as I.
  split; [|split; [|exact N]].
  - intros Hle. apply Nat.leb_le in Hle. now rewrite Hle in P.
  - intros Hlt. apply Nat.leb_gt in Hlt. rewrite Hlt in P, I. now split.
Qed.

(** ** The fields of a line in its record *)

Lemma line_record_fields
      trade_date asset_type qty_long qty_short subtype_ symbol_ exchange_
      exp_date trade_price currency_ trade_type description_ filename t :
  line_record trade_date asset_type qty_long qty_short subtype_ symbol_
              exchange_ exp_date trade_price currency_ trade_type
              description_ filename = Append t ->
  subtype t = Some subtype_ /\ qtyLong t = qty_long /\ qtyShort t = qty_short /\
  symbol t = Some symbol_ /\ assetType t = Some asset_type /\
  currency t = Some currency_ /\ exchange t = exchange_.
Proof.
  unfold line_record. destruct (_ || _); [discriminate|].
  intros H. injection H as <-. repeat split.
Qed.

Lemma fields_record (f : line_fields) (n1 n2 : Z)
      trade_date exp_date trade_price trade_type description_ filename t :
  fields_shaped f ->
  parse_int (Some (f_long f)) = Returns n1 ->
  parse_int (Some (f_short f)) = Returns n2 ->
  line_record trade_date (f_asset f) n1 n2 (f_side f) (f_symbol f)
              (f_exchange f) exp_date trade_price (f_currency f) trade_type
              description_ filename = Append t ->
  line_shaped t.
Proof.
  intros (_ & Ha & [L1 L2] & [S1 S2] & Hside & Hsym & Hex & _ & _ & Hcur) E1 E2 H.
  apply line_record_fields in H.
  destruct H as (Hsub & Hq1 & Hq2 & Hs & Hat & Hc & He).
  pose proof (parse_int_digits_nonneg _ _ L1 L2 E1) as N1.
  pose proof (parse_int_digits_nonneg _ _ S1 S2 E2) as N2.
  unfold line_shaped. rewrite Hsub, Hq1, Hq2, Hs, Hat, Hc, He.
  split; [destruct Hside as [-> | ->]; [now left | now right]|].
  split; [exact N1|]. split; [exact N2|].
  split; [now exists (f_symbol f)|].
  split; [now exists (f_asset f)|].
  split; [now exists (f_currency f) | exact Hex].
Qed.

Lemma summary_step_shaped (line filename : text) (t : Transaction) :
  summary_step line filename = Append t -> line_shaped t.
Proof.
  unfold summary_step.
  destruct (re_match 11 summary_pattern line) as [[groups rest]|] eqn:E;
    [|discriminate].
  apply summary_pattern_groups in E. destruct E as (f & g10 & Hf & _ & ->).
  intros H. apply caught_append in H. unfold summary_line in H.
  cbv [group set_fields set_cap nth_error repeat] in H.
  peel H. injection H as H.
  eapply fields_record; try exact H; eassumption.
Qed.

Lemma text_step_shaped (l filename : text) (t : Transaction) :
  text_step l filename = Append t -> line_shaped t.
Proof.
  unfold text_step. destruct (negb _); [discriminate|].
  destruct (re_match 12 text_pattern (strip l)) as [[groups rest]|] eqn:E;
    [|discriminate].
  apply text_pattern_groups in E. destruct E as (f & g10 & g11 & Hf & _ & _ & ->).
  intros H. apply caught_append in H. unfold text_line in H.
  cbv [group set_fields set_cap nth_error repeat] in H.
  peel H. injection H as H.
  eapply fields_record; try exact H; eassumption.
Qed.

Lemma text_loop_steps (P : Transaction -> Prop) (filename : text)
      (lines : list text) (acc : list Transaction) :
  (forall l t, text_step l filename = Append t -> P t) ->
  Forall P acc -> Forall P (text_loop lines filename acc).
Proof.
  intros HP. revert acc.
  induction lines as [|l lines IH]; intros acc Hacc; simpl; [exact Hacc|].
  apply IH, emit_invariant; [apply HP | exact Hacc].
Qed.

Lemma purchase_sale_loop_steps (P : Transaction -> Prop) (filename : text)
      (lines : list text) (acc : list Transaction) :
  (forall l t, summary_step l filename = Append t -> P t) ->
  Forall P acc -> Forall P (purchase_sale_loop lines filename acc).
Proof.
  intros HP. revert acc.
  induction lines as [|l lines IH]; intros acc Hacc;
    cbn [purchase_sale_loop]; [exact Hacc|].
  destruct (negb (nonempty (strip l))); [now apply IH|].
  destruct (contains_any next_sections (strip l)); [exact Hacc|].
  apply IH, emit_invariant; [apply HP | exact Hacc].
Qed.

(** In every record of the two line parsers the side is [YES] or [NO], the
    two quantities are not negative, the symbol holds no blank, and asset
    type, exchange and currency are words: what the pattern let through. *)
Theorem line_records_shaped (text_ filename : text) :
  Forall line_shaped (parse_text_transactions text_ filename) /\
  Forall line_shaped (parse_purchase_and_sale_summary_text text_ filename).
Proof.
  unfold parse_text_transactions, parse_purchase_and_sale_summary_text. split.
  - apply text_loop_steps; [|constructor].
    intros l t. apply text_step_shaped.
  - apply purchase_sale_loop_steps; [|constructor].
    intros l t. apply summary_step_shaped.
Qed.

(** ** Instances of the further properties *)

(** A cell wrapped over two lines, blanks around it. *)
Lemma clean_value_shape_witness :
  clean_value (Some wrapped_cell) = Some (txt "Manchester City") /\
  txt "Manchester City" <> [] /\ txt "Manchester City" <> txt "None" /\
  ~ In newline (txt "Manchester City") /\
  strip (txt "Manchester City") = txt "Manchester City".
Proof.
  split; [reflexivity|].
  apply (clean_value_shape (Some wrapped_cell)). reflexivity.
Defined.

(** A symbol in small letters gets the tags of the symbol in capitals. *)
Lemma extract_tags_symbol_case_witness :
  extract_tags (txt "Chiefs") (txt "kxnflgame-25sep14") =
  extract_tags (txt "Chiefs") (txt "KXNFLGAME-25SEP14").
Proof. apply extract_tags_symbol_case. reflexivity. Defined.

(** No keyword in the description or the symbol: the description alone. *)
Lemma extract_tags_no_keyword_witness :
  extract_tags (txt "Manchester City") (txt "KXMISC-25SEP14") =
  [txt "Manchester City"].
Proof.
  apply (extract_tags_no_keyword (txt "Manchester City") (txt "KXMISC-25SEP14")).
  intros kws H. simpl in H.
  repeat (destruct H as [<- | H]; [split; reflexivity|]). contradiction.
Defined.

(** The sample row has eight cells. *)
Lemma table_row_never_raises_witness :
  (exists st, monthly_row sample_row sample_filename = Returns st) /\
  (exists st, summary_row sample_row sample_filename = Returns st).
Proof. apply table_row_never_raises. simpl. lia. Defined.

(** The timestamp of the first of September is no date to read. *)
Lemma parse_date_rejects_timestamps_witness :
  parse_date (Some (txt "2025-09-01")) = Returns (Some (txt "2025-09-01T00:00:00")) /\
  parse_date (Some (txt "2025-09-01T00:00:00")) = Returns None.
Proof.
  split; [reflexivity|].
  apply (parse_date_rejects_timestamps (Some (txt "2025-09-01"))). reflexivity.
Defined.

(** After [Open Positions] a good line is not read. *)
Lemma section_header_ends_parsing_witness :
  parse_purchase_and_sale_summary_text
    (join [newline] ([scenario_line] ++ txt "Open Positions" :: [scenario_line]))
    sample_filename =
  parse_purchase_and_sale_summary_text (join [newline] [scenario_line])
                                       sample_filename.
Proof.
  apply section_header_ends_parsing; [|reflexivity].
  repeat constructor; apply one_line_check; reflexivity.
Defined.

(** The sample statement: everything after the header line is handed over,
    and the parser stops at [Open Positions]. *)
Lemma parse_pdf_reads_after_header_witness :
  let rest :=
    [scenario_line; txt "Open Positions";
     txt "2025-09-02 SW 5 0 NO KXNFLGAME-25SEP14 Kalshi 2025-09-15 1.25 USD Later";
     []] in
  let transactions :=
    parse_purchase_and_sale_summary_text (join [newline] rest)
      (posix_basename (txt "in/statement.pdf")) in
  parse_pdf sample_open posix_basename (txt "in/statement.pdf") =
  Returns {| success := true; error := None;
             filename_ := posix_basename (txt "in/statement.pdf");
             transactionCount := List.length transactions;
             transactions_ := transactions |}.
Proof.
  intros rest.
  apply (parse_pdf_reads_after_header sample_open posix_basename
           (txt "in/statement.pdf") (sample_page ++ [newline])
           [txt "Monthly Statement"] (txt "Purchase and Sale Summary") rest).
  - reflexivity.
  - reflexivity.
  - repeat constructor.
  - reflexivity.
Defined.

(** The statement without the section fails, the sample one succeeds. *)
Lemma parse_pdf_success_iff_header_witness :
  (exists r, parse_pdf sample_open posix_basename (txt "other.pdf") = Returns r /\
             success r = contains section_header (other_page ++ [newline])) /\
  (exists r, parse_pdf sample_open posix_basename (txt "in/statement.pdf")
             = Returns r /\
             success r = contains section_header (sample_page ++ [newline])).
Proof.
  split; apply parse_pdf_success_iff_header; reflexivity.
Defined.

(** The envelope of a path that cannot be opened. *)
Lemma parse_pdf_envelope_witness :
  let r := failure (txt "[Errno 2] No such file or directory: 'missing.pdf'")
                   (txt "missing.pdf") in
  filename_ r = posix_basename (txt "missing.pdf") /\
  transactionCount r = List.length (transactions_ r) /\
  (success r = true -> error r = None) /\
  (success r = false -> error r <> None /\ transactions_ r = []) /\
  Forall (fun t => sourceFile t = posix_basename (txt "missing.pdf") /\
                   has_mandatory_fields t)
         (transactions_ r).
Proof.
  intros r.
  apply (parse_pdf_envelope sample_open posix_basename (txt "missing.pdf") r).
  reflexivity.
Defined.

(** The sample statement, an empty page before its only page of text. *)
Lemma document_lines_witness :
  exists all_text,
    extract_all_text sample_open (txt "in/statement.pdf") = Returns all_text /\
    split newline all_text =
    flat_map (split newline) (page_texts [None; Some sample_page]) ++ [[]].
Proof.
  apply (document_lines sample_open (txt "in/statement.pdf")
                        [None; Some sample_page]).
  reflexivity.
Defined.

(** The first page holds a record; the second page cannot be read.  The
    second document, on top of that, cannot be closed. *)
Lemma parse_pdf_page_failure_witness :
  parse_pdf broken_open posix_basename (txt "in/statement.pdf") =
  Returns (failure (txt "page 2 is damaged") (txt "statement.pdf")) /\
  parse_pdf stuck_open posix_basename (txt "in/statement.pdf") =
  Returns (failure (txt "handle is gone") (txt "statement.pdf")).
Proof.
  split.
  - apply (parse_pdf_page_failure broken_open posix_basename
             (txt "in/statement.pdf") [Some sample_page] broken_page
             [Returns (Some other_page)] (Returns tt)).
    reflexivity.
  - apply (parse_pdf_page_failure stuck_open posix_basename
             (txt "in/statement.pdf") [Some sample_page] broken_page
             [Returns (Some other_page)] (Raises stuck_handle)).
    reflexivity.
Defined.

(** A quantity with leading zeros. *)
Lemma parse_int_reads_digits_witness :
  parse_int (Some (txt "007")) = Returns (digits_val (txt "007")) /\
  (0 <= digits_val (txt "007"))%Z.
Proof.
  destruct (parse_int_reads_digits (txt "007")) as (H & _ & N);
    [discriminate | repeat constructor |].
  split; [|exact N]. apply H. apply Nat.leb_le. reflexivity.
Defined.

(** One digit more than [int] converts. *)
Example parse_int_beyond_limit :
  parse_int (Some (repeat "1"%char 4300)) =
  Returns (digits_val (repeat "1"%char 4300)) /\
  int_accepts (repeat "1"%char 4301) = false /\
  parse_int (Some (repeat "1"%char 4301)) = Returns 0%Z.
Proof. vm_compute. repeat split. Qed.

(** ** Blanks around a field *)

(** Blanks around a field never matter to the three normalizers: the
    stripped field gives the same value. *)
Theorem normalizers_ignore_outer_blanks (s : text) :
  parse_date (Some (strip s)) = parse_date (Some s) /\
  parse_float (Some (strip s)) = parse_float (Some s) /\
  parse_int (Some (strip s)) = parse_int (Some s).
Proof.
  destruct s as [|c s]; [repeat split|].
  destruct (strip (c :: s)) as [|x r] eqn:E.
  - unfold parse_date, parse_float, parse_int. rewrite E. repeat split.
  - rewrite <- E. unfold parse_date, parse_float, parse_int.
    rewrite strip_idem. rewrite E. repeat split.
Qed.
